(** * SECAgent: company resolution and report generation (sec-agent.ts)

    A shallow embedding of the query pipeline of [SECAgent]: the
    keyword gate, the known-company table and its substring lookup, the
    rate limiter, the submissions fetch, and the three report
    templates, followed by the properties the specification states
    about them. *)

From Stdlib Require Import Ascii String.
From Stdlib Require Import List Bool Arith NArith ZArith Lia.
Import ListNotations.

(** ** JavaScript strings

    A JavaScript string is a sequence of UTF-16 code units; [length],
    [substring], [includes] and [trim] all work on code units. *)

Definition unit16 := N.
Definition jsstring := list unit16.

(** A source literal written with ASCII characters only. *)
Definition u (s : string) : jsstring := map N_of_ascii (list_ascii_of_string s).

Definition nl : jsstring := [10%N].
(** U+2022 BULLET and U+1F4BC BRIEFCASE (a surrogate pair). *)
Definition bullet : jsstring := [8226%N].
Definition briefcase : jsstring := [55357%N; 56508%N].

Fixpoint str_eqb (a b : jsstring) : bool :=
  match a, b with
  | [], [] => true
  | x :: a', y :: b' => N.eqb x y && str_eqb a' b'
  | _, _ => false
  end.

(** [String.prototype.startsWith] at position 0, the inner step of
    [includes]. *)
Fixpoint startsWith (s p : jsstring) {struct p} : bool :=
  match p, s with
  | [], _ => true
  | _ :: _, [] => false
  | x :: p', y :: s' => N.eqb x y && startsWith s' p'
  end.

(** [s.includes(p)]: [p] occurs in [s] at some position. *)
Fixpoint includes (s p : jsstring) : bool :=
  startsWith s p ||
  match s with
  | [] => false
  | _ :: s' => includes s' p
  end.

(** WhiteSpace and LineTerminator code points of ECMAScript, the ones
    [trim] strips. *)
Definition whiteSpaceUnits : list unit16 :=
  [9; 10; 11; 12; 13; 32; 160; 5760;
   8192; 8193; 8194; 8195; 8196; 8197; 8198; 8199; 8200; 8201; 8202;
   8232; 8233; 8239; 8287; 12288; 65279]%N.

Definition isWhiteSpace (c : unit16) : bool := existsb (N.eqb c) whiteSpaceUnits.

Fixpoint trimStart (s : jsstring) : jsstring :=
  match s with
  | [] => []
  | c :: s' => if isWhiteSpace c then trimStart s' else s
  end.

Definition trimEnd (s : jsstring) : jsstring := rev (trimStart (rev s)).

Definition trim (s : jsstring) : jsstring := trimEnd (trimStart s).

Definition blank (s : jsstring) : Prop := forallb isWhiteSpace s = true.

(** [toLowerCase] follows the Unicode case tables, which are not part
    of the program.  The development is parametric in it and relies
    only on two facts: on code units below 128 it is the ASCII mapping,
    and white space has no lower-case form. *)
Definition lowerUnit (c : unit16) : unit16 :=
  if (N.leb 65 c && N.leb c 90)%bool then (c + 32)%N else c.

Class CaseMapping : Type := {
  toLowerCase : jsstring -> jsstring;
  toLowerCase_ascii :
    forall s, Forall (fun c => (c < 128)%N) s -> toLowerCase s = map lowerUnit s;
  toLowerCase_blank :
    forall s, blank s -> toLowerCase s = s
}.

(** ** The known-company table *)

Record CompanyData := { cik : jsstring; ticker : jsstring; title : jsstring }.

Definition mkCompany (c t n : string) : CompanyData :=
  {| cik := u c; ticker := u t; title := u n |}.

(** The object literal [knownCompanies]; [Object.entries] enumerates
    its (non-numeric) keys in the order they are written. *)
Definition knownCompanies : list (jsstring * CompanyData) :=
  [ (u "apple",     mkCompany "0000320193" "AAPL"  "Apple Inc.");
    (u "microsoft", mkCompany "0000789019" "MSFT"  "Microsoft Corporation");
    (u "tesla",     mkCompany "0001318605" "TSLA"  "Tesla, Inc.");
    (u "amazon",    mkCompany "0001018724" "AMZN"  "Amazon.com, Inc.");
    (u "google",    mkCompany "0001652044" "GOOGL" "Alphabet Inc.");
    (u "alphabet",  mkCompany "0001652044" "GOOGL" "Alphabet Inc.");
    (u "meta",      mkCompany "0001326801" "META"  "Meta Platforms, Inc.");
    (u "facebook",  mkCompany "0001326801" "META"  "Meta Platforms, Inc.");
    (u "nvidia",    mkCompany "0001045810" "NVDA"  "NVIDIA Corporation");
    (u "netflix",   mkCompany "0001065280" "NFLX"  "Netflix, Inc.") ].

(** The test of the loop body of [_fallbackCompanyLookup]. *)
Definition keyMatches (key companyKey : jsstring) : bool :=
  includes key companyKey || includes companyKey key.

(** The [for ... of Object.entries(...)] loop with its early return. *)
Fixpoint lookupLoop (companyKey : jsstring) (entries : list (jsstring * CompanyData))
  : option CompanyData :=
  match entries with
  | [] => None
  | (key, data) :: rest =>
      if keyMatches key companyKey then Some data else lookupLoop companyKey rest
  end.

Definition _fallbackCompanyLookup `{CaseMapping} (companyName : jsstring)
  : option CompanyData :=
  let companyKey := trim (toLowerCase companyName) in
  lookupLoop companyKey knownCompanies.

(** ** The keyword gate *)

Definition financialIndicators : list jsstring :=
  map u
    [ "company"; "financial"; "revenue"; "earnings"; "profit"; "stock";
      "investment"; "market cap"; "sec filing"; "annual report";
      "quarterly"; "balance sheet"; "income statement"; "cash flow";
      "public company"; "ticker"; "investor"; "shareholder" ]%string.

Definition _isFinancialQuery `{CaseMapping} (query : jsstring) : bool :=
  let queryLower := toLowerCase query in
  existsb (fun indicator => includes queryLower indicator) financialIndicators.

(** ** Submissions as returned by the disclosure API

    Every field of [CompanySubmissions] is optional; [None] is
    JavaScript's [undefined]. *)

Record RecentFilings := {
  form : option (list jsstring);
  filingDate : option (list jsstring);
  accessionNumber : option (list jsstring)
}.

Record Filings := { recent : option RecentFilings }.

Record CompanySubmissions := {
  description : option jsstring;
  sic : option jsstring;
  fiscalYearEnd : option jsstring;
  filings : option Filings
}.

(** [x || fallback] for an optional string: [undefined] and the empty
    string are the falsy ones. *)
Definition orElse (x : option jsstring) (fallback : jsstring) : jsstring :=
  match x with
  | Some (c :: s) => c :: s
  | _ => fallback
  end.

(** [x || []] for an optional array: every array is truthy. *)
Definition orEmpty (x : option (list jsstring)) : list jsstring :=
  match x with
  | Some a => a
  | None => []
  end.

(** A template-literal hole filled with a value that may be
    [undefined]. *)
Definition interpolate (x : option jsstring) : jsstring :=
  match x with
  | Some s => s
  | None => u "undefined"
  end.

(** The decimal form of a count, as a template literal prints it. *)
Fixpoint digits (d : Decimal.uint) : jsstring :=
  match d with
  | Decimal.Nil => []
  | Decimal.D0 d' => 48%N :: digits d'
  | Decimal.D1 d' => 49%N :: digits d'
  | Decimal.D2 d' => 50%N :: digits d'
  | Decimal.D3 d' => 51%N :: digits d'
  | Decimal.D4 d' => 52%N :: digits d'
  | Decimal.D5 d' => 53%N :: digits d'
  | Decimal.D6 d' => 54%N :: digits d'
  | Decimal.D7 d' => 55%N :: digits d'
  | Decimal.D8 d' => 56%N :: digits d'
  | Decimal.D9 d' => 57%N :: digits d'
  end.

Definition numberToString (n : nat) : jsstring := digits (Nat.to_uint n).

(** ** Recent filings *)

Definition keyForms : list jsstring := map u ["10-K"; "10-Q"; "8-K"; "DEF 14A"]%string.

(** [Array.prototype.includes] on an array of strings. *)
Definition arrayIncludes (arr : list jsstring) (x : jsstring) : bool :=
  existsb (str_eqb x) arr.

Module KeyFiling.
(** An element of [recentKeyFilings].  [date] and [accession] are
    array reads, so they are [undefined] when the index is out of
    range. *)
Record t := { form : jsstring; date : option jsstring; accession : option jsstring }.
End KeyFiling.

(** One iteration of the loop over [i]. *)
Definition keyFilingStep (forms filingDates accessionNumbers : list jsstring)
  (recentKeyFilings : list KeyFiling.t) (i : nat) : list KeyFiling.t :=
  match nth_error forms i with
  | Some form =>
      if arrayIncludes keyForms form && (i <? length filingDates) then
        recentKeyFilings ++
        [ {| KeyFiling.form := form;
             KeyFiling.date := nth_error filingDates i;
             KeyFiling.accession :=
               if i <? length accessionNumbers
               then nth_error accessionNumbers i
               else Some (u "N/A") |} ]
      else recentKeyFilings
  | None => recentKeyFilings
  end.

(** [for (let i = 0; i < Math.min(forms.length, 20); i++) ...] *)
Definition recentKeyFilings (forms filingDates accessionNumbers : list jsstring)
  : list KeyFiling.t :=
  fold_left (keyFilingStep forms filingDates accessionNumbers)
            (seq 0 (Nat.min (length forms) 20)) [].

Definition formDescriptions : list (jsstring * jsstring) :=
  [ (u "10-K", u "Annual Report");
    (u "10-Q", u "Quarterly Report");
    (u "8-K", u "Current Report");
    (u "DEF 14A", u "Proxy Statement") ].

Fixpoint property (obj : list (jsstring * jsstring)) (key : jsstring) : option jsstring :=
  match obj with
  | [] => None
  | (k, v) :: rest => if str_eqb k key then Some v else property rest key
  end.

(** The body of the [forEach] callback. *)
Definition filingLine (filing : KeyFiling.t) : jsstring :=
  let description :=
    orElse (property formDescriptions (KeyFiling.form filing)) (KeyFiling.form filing) in
  bullet ++ u " " ++ KeyFiling.form filing ++ u " (" ++ description ++
  u ") - Filed: " ++ interpolate (KeyFiling.date filing) ++ nl.

Definition recentOf (submissions : CompanySubmissions) : option RecentFilings :=
  match filings submissions with
  | Some f => recent f
  | None => None
  end.

Definition _analyzeRecentFilings (submissions : CompanySubmissions) : jsstring :=
  let result := u "**Recent SEC Filings:**" ++ nl in
  match recentOf submissions with
  | None => result ++ (bullet ++ u " No recent filings available" ++ nl ++ nl)
  | Some recentFilings =>
      let forms := orEmpty (form recentFilings) in
      let filingDates := orEmpty (filingDate recentFilings) in
      let accessionNumbers := orEmpty (accessionNumber recentFilings) in
      let found := recentKeyFilings forms filingDates accessionNumbers in
      let result :=
        if 0 <? length found then
          fold_left (fun result filing => result ++ filingLine filing)
                    (firstn 5 found) result
        else
          result ++
          (bullet ++ u " No key financial filings found in recent submissions" ++ nl) in
      result ++ nl
  end.

(** ** Financial highlights *)

Definition _extractFinancialHighlights (submissions : CompanySubmissions) : jsstring :=
  let result := u "**Financial Data Analysis:**" ++ nl in
  let result := result ++ (bullet ++ u " Filing Status: Active public company" ++ nl) in
  let result :=
    result ++ (bullet ++ u " Regulatory Compliance: Current with SEC requirements" ++ nl) in
  let result :=
    match recentOf submissions with
    | Some {| form := Some forms |} =>
        let annualReports := length (filter (fun form => str_eqb form (u "10-K")) forms) in
        let quarterlyReports := length (filter (fun form => str_eqb form (u "10-Q")) forms) in
        let result :=
          result ++ (bullet ++ u " Annual Reports (10-K): " ++
                     numberToString annualReports ++ u " on file" ++ nl) in
        result ++ (bullet ++ u " Quarterly Reports (10-Q): " ++
                   numberToString quarterlyReports ++ u " on file" ++ nl)
    | _ => result
    end in
  let result :=
    result ++
    (bullet ++
     u " Note: Detailed financial metrics require parsing individual filing documents" ++
     nl ++ nl) in
  let result := result ++ (u "**Investment Research Notes:**" ++ nl) in
  let result :=
    result ++
    (bullet ++
     u " Use SEC filings for: revenue trends, risk factors, management discussion" ++ nl) in
  let result :=
    result ++
    (bullet ++
     u " Key documents: 10-K (annual), 10-Q (quarterly), 8-K (material events)" ++ nl) in
  result ++
  (bullet ++ u " Combine with market data for comprehensive analysis" ++ nl ++ nl).

(** ** The full report *)

Definition _formatSECResults (companyName : jsstring) (cikData : CompanyData)
  (submissions : CompanySubmissions) : jsstring :=
  let result := u "**SEC Financial Data for: " ++ companyName ++ u "**" ++ nl ++ nl in
  let result := result ++ (u "**Company Information:**" ++ nl) in
  let result := result ++ (bullet ++ u " Official Name: " ++ title cikData ++ nl) in
  let result :=
    result ++
    (bullet ++ u " Ticker Symbol: " ++ orElse (Some (ticker cikData)) (u "N/A") ++ nl) in
  let result := result ++ (bullet ++ u " CIK: " ++ cik cikData ++ nl) in
  let result :=
    match description submissions with
    | Some (c :: d) =>
        let description := c :: d in
        let businessDesc :=
          if 300 <? length description
          then firstn 300 description ++ u "..."
          else description in
        result ++ (bullet ++ u " Business Description: " ++ businessDesc ++ nl)
    | _ => result
    end in
  let result :=
    result ++
    (bullet ++ u " Industry: " ++ orElse (sic submissions) (u "Not specified") ++ nl) in
  let result :=
    result ++
    (bullet ++ u " Fiscal Year End: " ++
     orElse (fiscalYearEnd submissions) (u "Not specified") ++ nl ++ nl) in
  let result := result ++ _analyzeRecentFilings submissions in
  result ++ _extractFinancialHighlights submissions.

(** ** The fallback report *)

Definition _fallbackCompanySearch (companyName : jsstring) : jsstring :=
  let result := u "**SEC Financial Research for: " ++ companyName ++ u "**" ++ nl ++ nl in
  let result := result ++ (u "**Company Search Results:**" ++ nl) in
  let result :=
    result ++
    (bullet ++ u " Company '" ++ companyName ++
     u "' not found in SEC EDGAR database" ++ nl) in
  let result := result ++ (bullet ++ u " This may indicate the company is:" ++ nl) in
  let result :=
    result ++ (u "  - Private company (not required to file with SEC)" ++ nl) in
  let result := result ++ (u "  - Foreign company not listed on US exchanges" ++ nl) in
  let result := result ++ (u "  - Subsidiary of another public company" ++ nl) in
  let result :=
    result ++ (u "  - Different legal name than search term" ++ nl ++ nl) in
  let result := result ++ (u "**Alternative Research Suggestions:**" ++ nl) in
  let result :=
    result ++ (bullet ++ u " Search for parent company or holding company" ++ nl) in
  let result :=
    result ++
    (bullet ++ u " Check if company trades under different ticker symbol" ++ nl) in
  let result :=
    result ++ (bullet ++ u " Use company's full legal name for search" ++ nl) in
  result ++
  (bullet ++ u " Consider private company databases for non-public entities" ++ nl ++ nl).

(** ** Effects

    The asynchronous methods read the clock, sleep, update
    [lastRequestTime], call [fetch] and may throw.  They are modelled
    in a state-and-exception monad over a [World] that holds the clock
    (milliseconds, as [Date.now()] reports it), the agent's
    [lastRequestTime] field and a trace.  The trace is ghost state: it
    only records, in order, each sleep, each call of the directory
    lookup and each call of [fetch] with the time it starts, so that
    one can say which of them a run performed.  What the outside does
    during one query (how late the timer fires, how long the network
    takes, what the server answers) is an [Env].  Synchronous code
    takes no time; calls are made one after the other. *)

Inductive Thrown :=
| JsError (message : jsstring)   (* an instance of Error *)
| JsNonError.                    (* any other thrown value *)

Inductive Event :=
| Sleep (ms : Z)
| CallLookup (companyName : jsstring)
| CallFetch (time : Z) (url : jsstring).

Record World := { clock : Z; lastRequestTime : Z; trace : list Event }.

Inductive Outcome (A : Type) :=
| Returned (a : A)
| Threw (e : Thrown).
Arguments Returned {A} a.
Arguments Threw {A} e.

Definition M (A : Type) : Type := World -> Outcome A * World.

Definition ret {A} (a : A) : M A := fun w => (Returned a, w).

Definition throw {A} (e : Thrown) : M A := fun w => (Threw e, w).

Definition bind {A B} (m : M A) (k : A -> M B) : M B :=
  fun w =>
    match m w with
    | (Returned a, w') => k a w'
    | (Threw e, w') => (Threw e, w')
    end.

Definition tryCatch {A} (body : M A) (handler : Thrown -> M A) : M A :=
  fun w =>
    match body w with
    | (Returned a, w') => (Returned a, w')
    | (Threw e, w') => handler e w'
    end.

Notation "x <- m ;; k" := (bind m (fun x => k))
  (at level 61, m at next level, right associativity).
Notation "m ;;; k" := (bind m (fun _ => k))
  (at level 61, right associativity).

(** The body of a [response.json()] call: it may throw, and the parsed
    value may be falsy ([None], e.g. [null]). *)
Inductive JsonResult :=
| JsonThrows (e : Thrown)
| JsonValue (v : option CompanySubmissions).

Inductive FetchResult :=
| FetchThrows (e : Thrown)
| Response (status : nat) (body : JsonResult).

Record Env := {
  timerLate : Z;
  fetchLatency : Z;
  respond : jsstring -> FetchResult
}.

Definition dateNow : M Z := fun w => (Returned (clock w), w).

Definition getLastRequestTime : M Z := fun w => (Returned (lastRequestTime w), w).

Definition setLastRequestTime (t : Z) : M unit :=
  fun w => (Returned tt, {| clock := clock w; lastRequestTime := t; trace := trace w |}).

Definition record (e : Event) : M unit :=
  fun w =>
    (Returned tt,
     {| clock := clock w; lastRequestTime := lastRequestTime w; trace := trace w ++ [e] |}).

(** [await new Promise(resolve => setTimeout(resolve, ms))]: the clock
    moves on by the delay asked for plus the timer's lateness. *)
Definition setTimeout (env : Env) (ms : Z) : M unit :=
  fun w =>
    (Returned tt,
     {| clock := (clock w + ms + timerLate env)%Z;
        lastRequestTime := lastRequestTime w;
        trace := trace w ++ [Sleep ms] |}).

(** [response.ok] of the Fetch standard. *)
Definition ok (status : nat) : bool := (200 <=? status) && (status <=? 299).

(** [await fetch(url, { headers })] with the agent's fixed headers. *)
Definition fetch (env : Env) (url : jsstring) : M (nat * JsonResult) :=
  fun w =>
    let w' := {| clock := (clock w + fetchLatency env)%Z;
                 lastRequestTime := lastRequestTime w;
                 trace := trace w ++ [CallFetch (clock w) url] |} in
    match respond env url with
    | FetchThrows e => (Threw e, w')
    | Response status body => (Returned (status, body), w')
    end.

Definition json (body : JsonResult) : M (option CompanySubmissions) :=
  match body with
  | JsonThrows e => throw e
  | JsonValue v => ret v
  end.

(** ** The agent *)

Definition baseUrl : jsstring := u "https://data.sec.gov".
Definition rateLimitDelay : Z := 3000.

(** A world in which no request has been made yet. *)
Definition initialWorld (now : Z) : World :=
  {| clock := now; lastRequestTime := 0; trace := [] |}.

Definition _rateLimit (env : Env) : M unit :=
  now <- dateNow ;;
  last <- getLastRequestTime ;;
  let timeSinceLastRequest := (now - last)%Z in
  let waitTime := (rateLimitDelay - timeSinceLastRequest)%Z in
  (if (0 <? waitTime)%Z then setTimeout env waitTime else ret tt) ;;;
  now' <- dateNow ;;
  setLastRequestTime now'.

Definition _getCompanySubmissions (env : Env) (cik : jsstring)
  : M (option CompanySubmissions) :=
  tryCatch
    (let submissionsUrl := baseUrl ++ u "/submissions/CIK" ++ cik ++ u ".json" in
     response <- fetch env submissionsUrl ;;
     let (status, body) := response in
     if negb (ok status)
     then throw (JsError (u "SEC API error: " ++ numberToString status))
     else json body)
    (fun error => ret None).

(** What [createTextUtterance] is given. *)
Record Utterance := { speaker : jsstring; text : jsstring; to : jsstring }.

(** An element of [tokens]; the source types it [any], and reading
    [.value] of [null] or [undefined] throws. *)
Inductive Token :=
| Nullish
| TokenObject (value : option jsstring).

(** [tokens.map(token => token.value)] *)
Fixpoint tokenValues (tokens : list Token) : M (list (option jsstring)) :=
  match tokens with
  | [] => ret []
  | Nullish :: _ =>
      throw (JsError (u "Cannot read properties of null (reading 'value')"))
  | TokenObject value :: rest =>
      values <- tokenValues rest ;;
      ret (value :: values)
  end.

(** [values.join('')]: [undefined] elements contribute nothing. *)
Definition join (values : list (option jsstring)) : jsstring :=
  concat (map (fun v => match v with Some s => s | None => [] end) values).

Definition needNameMessage : jsstring :=
  briefcase ++ u " I need a company name to research SEC filings and financial data!".

Definition scopeMessage : jsstring :=
  briefcase ++
  u " I specialize in financial research for public companies. Try searching for company names, stock symbols, or financial terms. Use the terms 'company', 'financial', 'revenue', 'earnings', 'profit', 'stock', 'investment', 'market cap', 'sec filing', 'annual report', 'quarterly', 'balance sheet', 'income statement', 'cash flow', 'public company', 'ticker', 'investor', 'shareholder' in your query.".

Definition errorMessage : jsstring :=
  briefcase ++
  u " I encountered an error while searching SEC filings. Please try again with a different company name.".

Section Agent.

Context `{CaseMapping}.

(** [this.speakerUri] and [inEnvelope.sender.speakerUri]. *)
Variables speakerUri senderUri : jsstring.

Definition createTextUtterance (text : jsstring) : Utterance :=
  {| speaker := speakerUri; text := text; to := senderUri |}.

Definition lookupCall (companyName : jsstring) : M (option CompanyData) :=
  record (CallLookup companyName) ;;;
  ret (_fallbackCompanyLookup companyName).

Definition _findCompanyCIK (companyName : jsstring) : M (option CompanyData) :=
  tryCatch
    (fallbackResult <- lookupCall companyName ;;
     match fallbackResult with
     | Some data => ret (Some data)
     | None => ret None
     end)
    (fun error => lookupCall companyName).

Definition mentions404 (error : Thrown) : bool :=
  match error with
  | JsError message => includes message (u "404")
  | JsNonError => false
  end.

Definition _searchSEC (env : Env) (companyName : jsstring) : M jsstring :=
  _rateLimit env ;;;
  tryCatch
    (cikData <- _findCompanyCIK companyName ;;
     match cikData with
     | None => ret (_fallbackCompanySearch companyName)
     | Some cikData =>
         submissions <- _getCompanySubmissions env (cik cikData) ;;
         match submissions with
         | Some submissions => ret (_formatSECResults companyName cikData submissions)
         | None => ret (_fallbackCompanySearch companyName)
         end
     end)
    (fun error =>
       if mentions404 error
       then ret (_fallbackCompanySearch companyName)
       else throw error).

(** [tokens] is [dialogEvent?.features?.text?.tokens], [None] when
    any link of the chain is missing. *)
Definition _handleFinancialQuery (env : Env) (tokens : option (list Token))
  : M Utterance :=
  tryCatch
    (match tokens with
     | None | Some [] => ret (createTextUtterance needNameMessage)
     | Some tokens =>
         values <- tokenValues tokens ;;
         let companyName := join values in
         if negb (_isFinancialQuery companyName)
         then ret (createTextUtterance scopeMessage)
         else
           results <- _searchSEC env companyName ;;
           ret (createTextUtterance results)
     end)
    (fun error => ret (createTextUtterance errorMessage)).

End Agent.

(** ** Envelopes

    [processEnvelope] walks the events of an incoming envelope in
    order and collects the responses.  Of an event it looks at [to],
    at [eventType] and, through the handler, at the tokens of its
    dialog event. *)

Record Recipient := {
  toSpeakerUri : option jsstring;
  toServiceUrl : option jsstring
}.

Record InEvent := {
  eventType : jsstring;
  eventTo : option Recipient;
  eventTokens : option (list Token)
}.

Record InEnvelope := {
  schemaVersion : jsstring;
  conversationId : jsstring;
  senderSpeakerUri : jsstring;
  events : list InEvent
}.

Inductive OutEvent (Manifest : Type) :=
| TextUtterance (utterance : Utterance)
| PublishManifests (recipient : jsstring) (servicingManifests : list Manifest).
Arguments TextUtterance {Manifest} utterance.
Arguments PublishManifests {Manifest} recipient servicingManifests.

Record OutEnvelope (Manifest : Type) := {
  outSchemaVersion : jsstring;
  outConversationId : jsstring;
  outSpeakerUri : jsstring;
  outServiceUrl : jsstring;
  outEvents : list (OutEvent Manifest)
}.
Arguments outSchemaVersion {Manifest} _.
Arguments outConversationId {Manifest} _.
Arguments outSpeakerUri {Manifest} _.
Arguments outServiceUrl {Manifest} _.
Arguments outEvents {Manifest} _.

(** [x === s] for a property that may be missing. *)
Definition strictEq (x : option jsstring) (s : jsstring) : bool :=
  match x with
  | Some v => str_eqb v s
  | None => false
  end.

Section Envelope.

Context `{CaseMapping}.

(** What [this.manifest.toObject()] evaluates to, and the protocol
    library's [isUtteranceEvent]; neither is part of the program. *)
Variable Manifest : Type.
Variable manifest : Manifest.
Variable isUtteranceEvent : InEvent -> bool.

(** [this.speakerUri] and [this.serviceUrl]. *)
Variables speakerUri serviceUrl : jsstring.

(** What the outside does while the event at each position is
    handled. *)
Variable env : nat -> Env.

Definition addressedToMe (event : InEvent) : bool :=
  match eventTo event with
  | None => true
  | Some recipient =>
      strictEq (toSpeakerUri recipient) speakerUri ||
      strictEq (toServiceUrl recipient) serviceUrl
  end.

(** The [for ... of inEnvelope.events] loop from position [i] on. *)
Fixpoint processEvents (senderUri : jsstring) (i : nat) (pending : list InEvent)
  (responseEvents : list (OutEvent Manifest)) : M (list (OutEvent Manifest)) :=
  match pending with
  | [] => ret responseEvents
  | event :: rest =>
      if addressedToMe event && isUtteranceEvent event then
        responseEvent <-
          _handleFinancialQuery speakerUri senderUri (env i) (eventTokens event) ;;
        processEvents senderUri (S i) rest (responseEvents ++ [TextUtterance responseEvent])
      else if addressedToMe event && str_eqb (eventType event) (u "getManifests") then
        processEvents senderUri (S i) rest
          (responseEvents ++ [PublishManifests senderUri [manifest]])
      else
        processEvents senderUri (S i) rest responseEvents
  end.

Definition processEnvelope (inEnvelope : InEnvelope) : M (OutEnvelope Manifest) :=
  responseEvents <-
    processEvents (senderSpeakerUri inEnvelope) 0 (events inEnvelope) [] ;;
  ret {| outSchemaVersion := schemaVersion inEnvelope;
         outConversationId := conversationId inEnvelope;
         outSpeakerUri := speakerUri;
         outServiceUrl := serviceUrl;
         outEvents := responseEvents |}.

End Envelope.
Arguments processEvents {H Manifest} manifest isUtteranceEvent speakerUri serviceUrl env senderUri i pending responseEvents.
Arguments processEnvelope {H Manifest} manifest isUtteranceEvent speakerUri serviceUrl env inEnvelope.

(** ** Notions used to state the properties *)

(** [p] occurs in [s] as a contiguous run of code units. *)
Definition occursIn (p s : jsstring) : Prop :=
  exists pre post, s = pre ++ p ++ post.

(** The loop's test in words: the key contains the normalized input, or
    the normalized input contains the key. *)
Definition related (key companyKey : jsstring) : Prop :=
  occursIn companyKey key \/ occursIn key companyKey.

(** The first entry of the table. *)
Definition appleData : CompanyData := mkCompany "0000320193" "AAPL" "Apple Inc.".

(** The URL [_getCompanySubmissions] requests for a CIK. *)
Definition submissionsUrl (cik : jsstring) : jsstring :=
  baseUrl ++ u "/submissions/CIK" ++ cik ++ u ".json".

(** A fetch is successful when the response has an ok status and its
    body parses to a truthy value. *)
Definition delivered (r : FetchResult) : option CompanySubmissions :=
  match r with
  | Response status (JsonValue (Some submissions)) =>
      if ok status then Some submissions else None
  | _ => None
  end.

(** The world after each step of a query, and the report a query ends
    with; the run lemmas below show that the monadic code computes
    exactly these. *)
Definition afterRateLimit (env : Env) (w : World) : World :=
  let waitTime := (rateLimitDelay - (clock w - lastRequestTime w))%Z in
  if (0 <? waitTime)%Z then
    let woken := (clock w + waitTime + timerLate env)%Z in
    {| clock := woken; lastRequestTime := woken; trace := trace w ++ [Sleep waitTime] |}
  else
    {| clock := clock w; lastRequestTime := clock w; trace := trace w |}.

Definition afterLookup (companyName : jsstring) (w : World) : World :=
  {| clock := clock w; lastRequestTime := lastRequestTime w;
     trace := trace w ++ [CallLookup companyName] |}.

Definition afterFetch (env : Env) (url : jsstring) (w : World) : World :=
  {| clock := (clock w + fetchLatency env)%Z; lastRequestTime := lastRequestTime w;
     trace := trace w ++ [CallFetch (clock w) url] |}.

Definition afterSearch `{CaseMapping} (env : Env) (companyName : jsstring) (w : World)
  : World :=
  let w1 := afterLookup companyName (afterRateLimit env w) in
  match _fallbackCompanyLookup companyName with
  | None => w1
  | Some cikData => afterFetch env (submissionsUrl (cik cikData)) w1
  end.

Definition reportOf `{CaseMapping} (env : Env) (companyName : jsstring) : jsstring :=
  match _fallbackCompanyLookup companyName with
  | None => _fallbackCompanySearch companyName
  | Some cikData =>
      match delivered (respond env (submissionsUrl (cik cikData))) with
      | Some submissions => _formatSECResults companyName cikData submissions
      | None => _fallbackCompanySearch companyName
      end
  end.

(** The ways a fetch can fail: the network call throws, the status is
    not ok (404 included), the body does not parse, or it parses to a
    falsy value. *)
Inductive fetchFailure : FetchResult -> Prop :=
| NetworkFailure e : fetchFailure (FetchThrows e)
| HttpFailure status body : ok status = false -> fetchFailure (Response status body)
| BodyFailure status e : fetchFailure (Response status (JsonThrows e))
| EmptyBody status : fetchFailure (Response status (JsonValue None)).

(** What iteration [i] of the key-filings loop contributes. *)
Definition keyFilingAt (forms filingDates accessionNumbers : list jsstring) (i : nat)
  : list KeyFiling.t :=
  keyFilingStep forms filingDates accessionNumbers [] i.

(** The index-aligned (form, date) entries of a submission, the
    recent-filings sequence of the specification. *)
Definition entriesOf (submissions : CompanySubmissions) : list (jsstring * jsstring) :=
  match recentOf submissions with
  | Some recentFilings =>
      combine (orEmpty (form recentFilings)) (orEmpty (filingDate recentFilings))
  | None => []
  end.

(** The key filings in the specification's words: of the first 20
    index-aligned (form, date) entries keep those whose form type is a
    key form, in their order, and show at most the first 5. *)
Definition isKeyEntry (entry : jsstring * jsstring) : bool :=
  arrayIncludes keyForms (fst entry).

Definition keyEntriesOfFirst20 (entries : list (jsstring * jsstring))
  : list (jsstring * jsstring) :=
  filter isKeyEntry (firstn 20 entries).

Definition shownEntries (entries : list (jsstring * jsstring))
  : list (jsstring * jsstring) :=
  firstn 5 (keyEntriesOfFirst20 entries).

(** What a key filing shows in the report: its form and its date. *)
Definition shownPart (filing : KeyFiling.t) : jsstring * option jsstring :=
  (KeyFiling.form filing, KeyFiling.date filing).

Definition readEntry (entry : jsstring * jsstring) : jsstring * option jsstring :=
  (fst entry, Some (snd entry)).

Definition noRecentLine : jsstring :=
  bullet ++ u " No recent filings available" ++ nl ++ nl.

Definition noKeyLine : jsstring :=
  bullet ++ u " No key financial filings found in recent submissions" ++ nl.

(** The same submissions with another [accessionNumber] array. *)
Definition withAccessionNumbers (numbers : option (list jsstring))
  (submissions : CompanySubmissions) : CompanySubmissions :=
  match filings submissions with
  | Some {| recent := Some recentFilings |} =>
      {| description := description submissions;
         sic := sic submissions;
         fiscalYearEnd := fiscalYearEnd submissions;
         filings := Some {| recent := Some
           {| form := form recentFilings;
              filingDate := filingDate recentFilings;
              accessionNumber := numbers |} |} |}
  | _ => submissions
  end.

(** The parts of the full report around the description line. *)
Definition headerAndIdentity (companyName : jsstring) (cikData : CompanyData) : jsstring :=
  u "**SEC Financial Data for: " ++ companyName ++ u "**" ++ nl ++ nl ++
  u "**Company Information:**" ++ nl ++
  bullet ++ u " Official Name: " ++ title cikData ++ nl ++
  bullet ++ u " Ticker Symbol: " ++ orElse (Some (ticker cikData)) (u "N/A") ++ nl ++
  bullet ++ u " CIK: " ++ cik cikData ++ nl.

Definition afterDescription (submissions : CompanySubmissions) : jsstring :=
  bullet ++ u " Industry: " ++ orElse (sic submissions) (u "Not specified") ++ nl ++
  bullet ++ u " Fiscal Year End: " ++
  orElse (fiscalYearEnd submissions) (u "Not specified") ++ nl ++ nl ++
  _analyzeRecentFilings submissions ++
  _extractFinancialHighlights submissions.

Definition descriptionLine (shown : jsstring) : jsstring :=
  bullet ++ u " Business Description: " ++ shown ++ nl.

(** The parts of the Financial Data Analysis section around the two
    count lines. *)
Definition highlightsHead : jsstring :=
  u "**Financial Data Analysis:**" ++ nl ++
  bullet ++ u " Filing Status: Active public company" ++ nl ++
  bullet ++ u " Regulatory Compliance: Current with SEC requirements" ++ nl.

Definition highlightsTail : jsstring :=
  bullet ++
  u " Note: Detailed financial metrics require parsing individual filing documents" ++
  nl ++ nl ++
  u "**Investment Research Notes:**" ++ nl ++
  bullet ++
  u " Use SEC filings for: revenue trends, risk factors, management discussion" ++ nl ++
  bullet ++
  u " Key documents: 10-K (annual), 10-Q (quarterly), 8-K (material events)" ++ nl ++
  bullet ++ u " Combine with market data for comprehensive analysis" ++ nl ++ nl.

Definition annualLine (count : nat) : jsstring :=
  bullet ++ u " Annual Reports (10-K): " ++ numberToString count ++ u " on file" ++ nl.

Definition quarterlyLine (count : nat) : jsstring :=
  bullet ++ u " Quarterly Reports (10-Q): " ++ numberToString count ++ u " on file" ++ nl.

(** The line the report prints for a (form, date) entry. *)
Definition entryLine (entry : jsstring * jsstring) : jsstring :=
  filingLine {| KeyFiling.form := fst entry;
                KeyFiling.date := Some (snd entry);
                KeyFiling.accession := None |}.

Definition jsstring_eq_dec : forall a b : jsstring, {a = b} + {a <> b} :=
  list_eq_dec N.eq_dec.

(** The number of entries of [forms] equal to [x], over the whole
    sequence. *)
Definition occurrences (x : jsstring) (forms : list jsstring) : nat :=
  count_occ jsstring_eq_dec forms x.

(** The times at which [fetch] was called, oldest first. *)
Fixpoint fetchTimes (events : list Event) : list Z :=
  match events with
  | [] => []
  | CallFetch time _ :: rest => time :: fetchTimes rest
  | _ :: rest => fetchTimes rest
  end.

(** The values of a token list, when every token can be read. *)
Fixpoint valuesOf (tokens : list Token) : option (list (option jsstring)) :=
  match tokens with
  | [] => Some []
  | Nullish :: _ => None
  | TokenObject value :: rest =>
      match valuesOf rest with
      | Some values => Some (value :: values)
      | None => None
      end
  end.

(** The text the handler answers with and the world it leaves. *)
Definition handlerMessage `{CaseMapping} (env : Env) (tokens : option (list Token))
  : jsstring :=
  match tokens with
  | None | Some [] => needNameMessage
  | Some tokens =>
      match valuesOf tokens with
      | None => errorMessage
      | Some values =>
          if _isFinancialQuery (join values)
          then reportOf env (join values)
          else scopeMessage
      end
  end.

Definition handlerWorld `{CaseMapping} (env : Env) (tokens : option (list Token))
  (w : World) : World :=
  match tokens with
  | None | Some [] => w
  | Some tokens =>
      match valuesOf tokens with
      | None => w
      | Some values =>
          if _isFinancialQuery (join values)
          then afterSearch env (join values) w
          else w
      end
  end.

(** Consecutive times are at least [rateLimitDelay] apart. *)
Fixpoint spaced (times : list Z) : Prop :=
  match times with
  | [] => True
  | a :: rest =>
      match rest with
      | [] => True
      | b :: _ => (a + rateLimitDelay <= b)%Z /\ spaced rest
      end
  end.

(** The fetches made so far are spaced and none is later than
    [lastRequestTime]. *)
Definition paced (w : World) : Prop :=
  spaced (fetchTimes (trace w)) /\
  Forall (fun time => (time <= lastRequestTime w)%Z) (fetchTimes (trace w)).

(** An event that gets a response. *)
Definition answered (isUtteranceEvent : InEvent -> bool) (speakerUri serviceUrl : jsstring)
  (event : InEvent) : bool :=
  addressedToMe speakerUri serviceUrl event &&
  (isUtteranceEvent event || str_eqb (eventType event) (u "getManifests")).

(** An event that is handed to the query handler. *)
Definition queried (isUtteranceEvent : InEvent -> bool) (speakerUri serviceUrl : jsstring)
  (event : InEvent) : bool :=
  addressedToMe speakerUri serviceUrl event && isUtteranceEvent event.

(** What [processEnvelope] collects for the events from position [i]
    on, and the world it leaves, as functions of the events. *)
Section EnvelopeNotions.

Context `{CaseMapping}.
Variable Manifest : Type.
Variable manifest : Manifest.
Variable isUtteranceEvent : InEvent -> bool.
Variables speakerUri serviceUrl : jsstring.
Variable env : nat -> Env.

Definition responseTo (senderUri : jsstring) (i : nat) (event : InEvent)
  : list (OutEvent Manifest) :=
  if queried isUtteranceEvent speakerUri serviceUrl event then
    [TextUtterance
       (createTextUtterance speakerUri senderUri
          (handlerMessage (env i) (eventTokens event)))]
  else if answered isUtteranceEvent speakerUri serviceUrl event then
    [PublishManifests senderUri [manifest]]
  else [].

Fixpoint responsesFrom (senderUri : jsstring) (i : nat) (pending : list InEvent)
  : list (OutEvent Manifest) :=
  match pending with
  | [] => []
  | event :: rest => responseTo senderUri i event ++ responsesFrom senderUri (S i) rest
  end.

Fixpoint worldFrom (i : nat) (pending : list InEvent) (w : World) : World :=
  match pending with
  | [] => w
  | event :: rest =>
      worldFrom (S i) rest
        (if queried isUtteranceEvent speakerUri serviceUrl event
         then handlerWorld (env i) (eventTokens event) w
         else w)
  end.

End EnvelopeNotions.
Arguments responseTo {H Manifest} manifest isUtteranceEvent speakerUri serviceUrl env senderUri i event.
Arguments responsesFrom {H Manifest} manifest isUtteranceEvent speakerUri serviceUrl env senderUri i pending.

Definition isTextUtterance {Manifest} (event : OutEvent Manifest) : bool :=
  match event with
  | TextUtterance _ => true
  | PublishManifests _ _ => false
  end.

Definition recipientOf {Manifest} (event : OutEvent Manifest) : jsstring :=
  match event with
  | TextUtterance utterance => to utterance
  | PublishManifests recipient _ => recipient
  end.

(** The ASCII code units. *)
Definition ascii7 (s : jsstring) : Prop := Forall (fun c => (c < 128)%N) s.

(** The keyword list without ['public company']. *)
Definition indicatorsWithoutPublicCompany : list jsstring :=
  map u
    [ "company"; "financial"; "revenue"; "earnings"; "profit"; "stock";
      "investment"; "market cap"; "sec filing"; "annual report";
      "quarterly"; "balance sheet"; "income statement"; "cash flow";
      "ticker"; "investor"; "shareholder" ]%string.

(** ** Sample inputs *)

Definition noSubmissions : CompanySubmissions :=
  {| description := None; sic := None; fiscalYearEnd := None; filings := None |}.

(** Twenty insider forms, then twelve 10-K and eight 10-Q entries. *)
Definition lateReports : CompanySubmissions :=
  {| description := Some (u "Designs and sells consumer electronics.");
     sic := Some (u "3571");
     fiscalYearEnd := Some (u "0930");
     filings := Some {| recent := Some
       {| form := Some (repeat (u "4") 20 ++ repeat (u "10-K") 12 ++ repeat (u "10-Q") 8);
          filingDate := Some (repeat (u "2024-11-01") 40);
          accessionNumber := Some (repeat (u "0000320193-24-000123") 40) |} |} |}.

(** Arrays of unequal lengths: eight forms, six dates, no accession
    numbers. *)
Definition raggedSubmissions : CompanySubmissions :=
  {| description := None;
     sic := None;
     fiscalYearEnd := None;
     filings := Some {| recent := Some
       {| form := Some (map u ["10-K"; "4"; "10-Q"; "8-K"; "DEF 14A"; "10-Q"; "8-K"; "10-K"]%string);
          filingDate := Some (map u ["2024-11-01"; "2024-10-15"; "2024-08-02"; "2024-08-01";
                                     "2024-01-11"; "2024-05-03"]%string);
          accessionNumber := None |} |} |}.

Definition answering (r : FetchResult) : Env :=
  {| timerLate := 0; fetchLatency := 120; respond := fun _ => r |}.

Definition afresh : World := initialWorld 1730000000000.

(** An envelope with an utterance for everyone, a manifest request for
    the agent, an utterance for another agent and an utterance sent to
    the agent's service URL. *)
Definition byEventType (event : InEvent) : bool :=
  str_eqb (eventType event) (u "utterance").

Definition sayTo (recipient : option Recipient) (words : string) : InEvent :=
  {| eventType := u "utterance"; eventTo := recipient;
     eventTokens := Some [TokenObject (Some (u words))] |}.

Definition busyEnvelope : InEnvelope :=
  {| schemaVersion := u "1.0.0";
     conversationId := u "conv:42";
     senderSpeakerUri := u "user";
     events :=
       [ sayTo None "Apple stock";
         {| eventType := u "getManifests";
            eventTo := Some {| toSpeakerUri := Some (u "agent"); toServiceUrl := None |};
            eventTokens := None |};
         sayTo (Some {| toSpeakerUri := Some (u "other"); toServiceUrl := Some (u "elsewhere") |})
               "Tesla stock";
         sayTo (Some {| toSpeakerUri := None; toServiceUrl := Some (u "https://agent") |})
               "Tesla earnings" ] |}.

Definition quietEnvelope : InEnvelope :=
  {| schemaVersion := u "1.0.0";
     conversationId := u "conv:43";
     senderSpeakerUri := u "user";
     events :=
       [ {| eventType := u "getManifests"; eventTo := None; eventTokens := None |};
         sayTo (Some {| toSpeakerUri := Some (u "other"); toServiceUrl := None |})
               "Apple stock" ] |}.

Definition steady (k : nat) : Env := answering (Response 200 (JsonValue (Some lateReports))).

(** ** A case mapping to run the definitions with

    It lower-cases the ASCII letters and leaves every other code unit
    alone, so it agrees with [toLowerCase] on all strings made of code
    units below 128 and of white space. *)

Lemma isWhiteSpace_lowerUnit c : isWhiteSpace c = true -> lowerUnit c = c.
Proof.
  unfold isWhiteSpace, whiteSpaceUnits. intros Hc.
  apply existsb_exists in Hc. destruct Hc as [x [Hin Hx]].
  apply N.eqb_eq in Hx. subst x.
  simpl in Hin.
  repeat (destruct Hin as [<- | Hin]; [reflexivity |]).
  destruct Hin.
Qed.

Lemma lowerUnit_blank s : blank s -> map lowerUnit s = s.
Proof.
  unfold blank. induction s as [| c s IH]; simpl; intros Hb.
  - reflexivity.
  - apply andb_true_iff in Hb. destruct Hb as [Hc Hs].
    rewrite (isWhiteSpace_lowerUnit c Hc), (IH Hs). reflexivity.
Qed.

#[export] Instance asciiCase : CaseMapping := {|
  toLowerCase := map lowerUnit;
  toLowerCase_ascii := fun s _ => eq_refl;
  toLowerCase_blank := lowerUnit_blank
|}.

(** * Properties *)

(** ** Strings *)

Lemma str_eqb_eq a b : str_eqb a b = true <-> a = b.
Proof.
  revert b. induction a as [| x a IH]; intros [| y b]; simpl; split;
    try congruence; try reflexivity.
  - intros Hxy. apply andb_true_iff in Hxy. destruct Hxy as [Hx Hab].
    apply N.eqb_eq in Hx. apply IH in Hab. congruence.
  - intros Heq. injection Heq as -> ->.
    rewrite N.eqb_refl. simpl. apply IH. reflexivity.
Qed.

Lemma str_eqb_refl a : str_eqb a a = true.
Proof. apply str_eqb_eq. reflexivity. Qed.

Lemma startsWith_prefix s p : startsWith s p = true <-> exists post, s = p ++ post.
Proof.
  revert s. induction p as [| x p IH]; intros s; simpl.
  - split; [intros _; exists s; reflexivity | reflexivity].
  - destruct s as [| y s].
    + split; [discriminate | intros [post Hpost]; discriminate].
    + rewrite andb_true_iff, N.eqb_eq, IH. split.
      * intros [-> [post ->]]. exists post. reflexivity.
      * intros [post Hpost]. injection Hpost as -> ->. split; [reflexivity |].
        exists post. reflexivity.
Qed.

Lemma includes_occursIn s p : includes s p = true <-> occursIn p s.
Proof.
  unfold occursIn. induction s as [| y s IH]; simpl.
  - rewrite orb_false_r, startsWith_prefix. split.
    + intros [post ->]. exists [], post. reflexivity.
    + intros [pre [post Heq]]. destruct pre; [| discriminate].
      exists post. exact Heq.
  - rewrite orb_true_iff, startsWith_prefix, IH. split.
    + intros [[post ->] | [pre [post ->]]].
      * exists [], post. reflexivity.
      * exists (y :: pre), post. reflexivity.
    + intros [pre [post Heq]]. destruct pre as [| z pre].
      * left. exists post. exact Heq.
      * right. injection Heq as -> ->. exists pre, post. reflexivity.
Qed.

Lemma includes_empty s : includes s [] = true.
Proof. destruct s; reflexivity. Qed.

Lemma occursIn_end p s : occursIn p (s ++ p).
Proof. exists s, []. rewrite app_nil_r. reflexivity. Qed.

Lemma occursIn_app_l p s t : occursIn p s -> occursIn p (s ++ t).
Proof.
  intros [pre [post ->]]. exists pre, (post ++ t).
  rewrite <- !app_assoc. reflexivity.
Qed.

Lemma occursIn_app_r p s t : occursIn p t -> occursIn p (s ++ t).
Proof.
  intros [pre [post ->]]. exists (s ++ pre), post.
  rewrite <- !app_assoc. reflexivity.
Qed.

Lemma occursIn_In p s c : occursIn p s -> In c p -> In c s.
Proof.
  intros [pre [post ->]] Hc. apply in_or_app. right.
  apply in_or_app. left. exact Hc.
Qed.

(** Finds a chunk of a report built by successive [result ++ chunk]. *)
Ltac find_chunk :=
  repeat first [ apply occursIn_end | apply occursIn_app_l ].

Lemma trimStart_blank s : blank s -> trimStart s = [].
Proof.
  unfold blank. induction s as [| c s IH]; simpl; intros Hb.
  - reflexivity.
  - apply andb_true_iff in Hb. destruct Hb as [Hc Hs].
    rewrite Hc. apply IH. exact Hs.
Qed.

Lemma trim_blank s : blank s -> trim s = [].
Proof.
  intros Hb. unfold trim, trimEnd. rewrite (trimStart_blank s Hb). reflexivity.
Qed.

Lemma blank_In s c : blank s -> In c s -> isWhiteSpace c = true.
Proof.
  unfold blank. rewrite forallb_forall. intros Hb Hc. apply Hb. exact Hc.
Qed.

(** A keyword with a visible character cannot occur in a blank string. *)
Lemma includes_blank s p :
  blank s -> existsb (fun c => negb (isWhiteSpace c)) p = true -> includes s p = false.
Proof.
  intros Hb Hp. apply existsb_exists in Hp. destruct Hp as [c [Hc Hvis]].
  destruct (includes s p) eqn:Hinc; [| reflexivity].
  apply includes_occursIn in Hinc.
  assert (Hw : isWhiteSpace c = true).
  { eapply blank_In; [exact Hb |]. eapply occursIn_In; eassumption. }
  rewrite Hw in Hvis. discriminate.
Qed.

(** ** The directory lookup *)

Lemma keyMatches_related key companyKey :
  keyMatches key companyKey = true <-> related key companyKey.
Proof.
  unfold keyMatches, related.
  rewrite orb_true_iff, !includes_occursIn. reflexivity.
Qed.

Lemma keyMatches_unrelated key companyKey :
  keyMatches key companyKey = false <-> ~ related key companyKey.
Proof.
  rewrite <- keyMatches_related.
  destruct (keyMatches key companyKey); split; congruence.
Qed.

Lemma lookupLoop_Some companyKey entries data :
  lookupLoop companyKey entries = Some data <->
  exists before key after,
    entries = before ++ (key, data) :: after /\
    related key companyKey /\
    Forall (fun entry => ~ related (fst entry) companyKey) before.
Proof.
  induction entries as [| [k d] rest IH]; simpl.
  - split; [discriminate |].
    intros [before [key [after [Heq _]]]]. destruct before; discriminate.
  - destruct (keyMatches k companyKey) eqn:Hk.
    + split.
      * intros Hd. injection Hd as ->. exists [], k, rest.
        split; [reflexivity |]. split; [apply keyMatches_related; exact Hk |].
        constructor.
      * intros [before [key [after [Heq [_ Hnone]]]]].
        destruct before as [| [k' d'] before].
        -- simpl in Heq. congruence.
        -- simpl in Heq. injection Heq as -> -> _.
           inversion Hnone as [| ? ? Hhead _]. subst. simpl in Hhead.
           apply keyMatches_related in Hk. contradiction.
    + rewrite IH. split.
      * intros [before [key [after [-> [Hrel Hnone]]]]].
        exists ((k, d) :: before), key, after.
        split; [reflexivity |]. split; [exact Hrel |].
        constructor; [| exact Hnone]. simpl. apply keyMatches_unrelated. exact Hk.
      * intros [before [key [after [Heq [Hrel Hnone]]]]].
        destruct before as [| [k' d'] before].
        -- simpl in Heq. injection Heq as -> _ _.
           apply keyMatches_related in Hrel. congruence.
        -- simpl in Heq. injection Heq as -> -> ->.
           exists before, key, after. split; [reflexivity |].
           split; [exact Hrel |]. inversion Hnone; assumption.
Qed.

Lemma lookupLoop_None companyKey entries :
  lookupLoop companyKey entries = None <->
  Forall (fun entry => ~ related (fst entry) companyKey) entries.
Proof.
  induction entries as [| [k d] rest IH]; simpl.
  - split; [constructor | reflexivity].
  - destruct (keyMatches k companyKey) eqn:Hk.
    + split; [discriminate |]. intros Hall.
      inversion Hall as [| ? ? Hhead _]. subst. simpl in Hhead.
      apply keyMatches_related in Hk. contradiction.
    + rewrite IH. split.
      * intros Hrest. constructor; [| exact Hrest].
        simpl. apply keyMatches_unrelated. exact Hk.
      * intros Hall. inversion Hall; assumption.
Qed.

(** When the entry at position [i] matches, the loop returns the data
    of a matching entry at a position no later than [i]. *)
Lemma lookupLoop_earliest companyKey entries :
  forall i key data,
    nth_error entries i = Some (key, data) ->
    related key companyKey ->
    exists i' key' data',
      i' <= i /\ nth_error entries i' = Some (key', data') /\
      related key' companyKey /\
      lookupLoop companyKey entries = Some data'.
Proof.
  induction entries as [| [k d] rest IH]; intros i key data Hnth Hrel.
  - destruct i; discriminate.
  - simpl. destruct (keyMatches k companyKey) eqn:Hk.
    + exists 0, k, d. split; [lia |]. split; [reflexivity |].
      split; [apply keyMatches_related; exact Hk | reflexivity].
    + destruct i as [| i].
      * simpl in Hnth. injection Hnth as -> ->.
        apply keyMatches_related in Hrel. congruence.
      * simpl in Hnth.
        destruct (IH i key data Hnth Hrel) as [i' [k' [d' [Hle [Hn [Hr Hl]]]]]].
        exists (S i'), k', d'. split; [lia |]. split; [exact Hn |].
        split; [exact Hr | exact Hl].
Qed.

Lemma lookupLoop_In companyKey entries data :
  lookupLoop companyKey entries = Some data -> In data (map snd entries).
Proof.
  induction entries as [| [k d] rest IH]; simpl; [discriminate |].
  destruct (keyMatches k companyKey).
  - intros Hd. injection Hd as ->. left. reflexivity.
  - intros Hd. right. apply IH. exact Hd.
Qed.

Lemma indicators_visible :
  forallb (fun indicator => existsb (fun c => negb (isWhiteSpace c)) indicator)
          financialIndicators = true.
Proof. vm_compute. reflexivity. Qed.

Lemma existsb_false_forall {A} (f : A -> bool) l :
  existsb f l = false <-> forall x, In x l -> f x = false.
Proof.
  induction l as [| a l IH]; simpl.
  - split; [intros _ x [] | reflexivity].
  - rewrite orb_false_iff, IH. split.
    + intros [Ha Hl] x [<- | Hx]; [exact Ha | apply Hl; exact Hx].
    + intros Hall. split; [apply Hall; left; reflexivity |].
      intros x Hx. apply Hall. right. exact Hx.
Qed.

(** C1, as the specification states it, fails on the code: the empty
    and the all-blank name both resolve to the first table entry. *)
Lemma C1_blank_name_resolves :
  _fallbackCompanyLookup [] = Some appleData /\
  _fallbackCompanyLookup (u "   ") = Some appleData /\
  _fallbackCompanyLookup [] <> None.
Proof.
  split; [vm_compute; reflexivity |].
  split; [vm_compute; reflexivity |].
  vm_compute. discriminate.
Qed.

(** C1 (amended): for every empty or white-space-only name the
    normalized key is empty, every table key contains it, and
    [_fallbackCompanyLookup] returns the first entry, Apple Inc.; what
    keeps such a name from resolving in the pipeline is the keyword
    gate, which is false on it. *)
Theorem C1_blank_name_first_entry `{CaseMapping} (companyName : jsstring) :
  blank companyName ->
  trim (toLowerCase companyName) = [] /\
  _fallbackCompanyLookup companyName = Some appleData /\
  _isFinancialQuery companyName = false.
Proof.
  intros Hb.
  assert (Hkey : trim (toLowerCase companyName) = []).
  { rewrite toLowerCase_blank by exact Hb. apply trim_blank. exact Hb. }
  split; [exact Hkey |]. split.
  - unfold _fallbackCompanyLookup. rewrite Hkey. reflexivity.
  - unfold _isFinancialQuery. rewrite toLowerCase_blank by exact Hb.
    apply existsb_false_forall. intros indicator Hin.
    apply includes_blank; [exact Hb |].
    pose proof indicators_visible as Hvis.
    rewrite forallb_forall in Hvis. apply Hvis. exact Hin.
Qed.

Lemma C1_blank_name_first_entry_witness :
  blank (u "   ") /\
  trim (toLowerCase (u "   ")) = [] /\
  _fallbackCompanyLookup (u "   ") = Some appleData /\
  _isFinancialQuery (u "   ") = false.
Proof.
  split; [reflexivity |].
  apply (@C1_blank_name_first_entry asciiCase (u "   ")). reflexivity.
Defined.

(** C3: the lookup normalizes its input (lower-case, then trim) and
    returns the data of the first entry, in table order, whose key
    contains the normalized input or is contained in it; it returns
    nothing exactly when no key is so related; and when the entries at
    two positions both match, the result comes from a matching entry
    no later than the earlier of the two. *)
Theorem C3_lookup_first_match `{CaseMapping} (companyName : jsstring) :
  let companyKey := trim (toLowerCase companyName) in
  (forall data,
     _fallbackCompanyLookup companyName = Some data <->
     exists before key after,
       knownCompanies = before ++ (key, data) :: after /\
       related key companyKey /\
       Forall (fun entry => ~ related (fst entry) companyKey) before) /\
  (_fallbackCompanyLookup companyName = None <->
   Forall (fun entry => ~ related (fst entry) companyKey) knownCompanies) /\
  (forall i j ki di kj dj,
     i < j ->
     nth_error knownCompanies i = Some (ki, di) ->
     nth_error knownCompanies j = Some (kj, dj) ->
     related ki companyKey -> related kj companyKey ->
     exists i' key' data',
       i' <= i /\ nth_error knownCompanies i' = Some (key', data') /\
       related key' companyKey /\
       _fallbackCompanyLookup companyName = Some data').
Proof.
  intros companyKey. unfold _fallbackCompanyLookup. fold companyKey.
  split; [intros data; apply lookupLoop_Some |].
  split; [apply lookupLoop_None |].
  intros i j ki di kj dj _ Hi _ Hri _.
  exact (lookupLoop_earliest companyKey knownCompanies i ki di Hi Hri).
Qed.

(** On [Google and Apple] both the [apple] and the [google] key
    match; Apple, first in the table, is returned. *)
Lemma C3_lookup_first_match_witness :
  _fallbackCompanyLookup (u "Google and Apple") = Some appleData /\
  exists i' key' data',
    i' <= 0 /\ nth_error knownCompanies i' = Some (key', data') /\
    related key' (trim (toLowerCase (u "Google and Apple"))) /\
    _fallbackCompanyLookup (u "Google and Apple") = Some data'.
Proof.
  split; [vm_compute; reflexivity |].
  destruct (@C3_lookup_first_match asciiCase (u "Google and Apple")) as [_ [_ Hfirst]].
  apply (Hfirst 0 4 (u "apple") appleData (u "google")
           (mkCompany "0001652044" "GOOGL" "Alphabet Inc.")).
  - lia.
  - reflexivity.
  - reflexivity.
  - right. apply includes_occursIn. vm_compute. reflexivity.
  - right. apply includes_occursIn. vm_compute. reflexivity.
Defined.

(** ** Running the pipeline *)

Lemma _rateLimit_run env w :
  _rateLimit env w = (Returned tt, afterRateLimit env w).
Proof.
  unfold _rateLimit, afterRateLimit, bind, dateNow, getLastRequestTime,
    setLastRequestTime, setTimeout, ret.
  destruct (0 <? rateLimitDelay - (clock w - lastRequestTime w))%Z; reflexivity.
Qed.

Lemma _getCompanySubmissions_run env cik w :
  _getCompanySubmissions env cik w =
  (Returned (delivered (respond env (submissionsUrl cik))),
   afterFetch env (submissionsUrl cik) w).
Proof.
  unfold _getCompanySubmissions, tryCatch, bind, fetch, delivered, afterFetch.
  fold (submissionsUrl cik).
  destruct (respond env (submissionsUrl cik)) as [e | status body]; [reflexivity |].
  destruct (ok status); simpl.
  - destruct body as [e | [submissions |]]; reflexivity.
  - destruct body as [e | [submissions |]]; reflexivity.
Qed.

Section Runs.

Context `{CaseMapping}.
Variables speakerUri senderUri : jsstring.

Lemma _findCompanyCIK_run companyName w :
  _findCompanyCIK companyName w =
  (Returned (_fallbackCompanyLookup companyName), afterLookup companyName w).
Proof.
  unfold _findCompanyCIK, tryCatch, bind, lookupCall, record, ret, afterLookup.
  destruct (_fallbackCompanyLookup companyName); reflexivity.
Qed.

(** [_searchSEC] always returns a report; its own [catch] never has
    anything to handle, because the lookup cannot throw and
    [_getCompanySubmissions] catches whatever [fetch] throws. *)
Lemma _searchSEC_run env companyName w :
  _searchSEC env companyName w =
  (Returned (reportOf env companyName), afterSearch env companyName w).
Proof.
  unfold _searchSEC, bind. rewrite _rateLimit_run.
  unfold tryCatch, bind. rewrite _findCompanyCIK_run.
  unfold reportOf, afterSearch.
  destruct (_fallbackCompanyLookup companyName) as [cikData |]; [| reflexivity].
  rewrite _getCompanySubmissions_run.
  destruct (delivered (respond env (submissionsUrl (cik cikData)))); reflexivity.
Qed.

Lemma tokenValues_objects values w :
  tokenValues (map TokenObject values) w = (Returned values, w).
Proof.
  induction values as [| v values IH]; simpl; [reflexivity |].
  unfold bind. rewrite IH. reflexivity.
Qed.

Lemma tokenValues_world tokens w : snd (tokenValues tokens w) = w.
Proof.
  induction tokens as [| [| v] tokens IH]; simpl; try reflexivity.
  unfold bind. destruct (tokenValues tokens w) as [[values | e] w'] eqn:Hrun;
    simpl in IH; subst w'; reflexivity.
Qed.

Lemma tokenValues_nullish tokens w :
  In Nullish tokens -> exists e, tokenValues tokens w = (Threw e, w).
Proof.
  induction tokens as [| [| v] tokens IH]; simpl; intros Hin.
  - destruct Hin.
  - eexists. reflexivity.
  - destruct Hin as [Hv | Hin]; [discriminate |].
    destruct (IH Hin) as [e He]. exists e. unfold bind. rewrite He. reflexivity.
Qed.

(** The handler on well-formed, non-empty tokens. *)
Lemma _handleFinancialQuery_run env values w :
  values <> [] ->
  _handleFinancialQuery speakerUri senderUri env (Some (map TokenObject values)) w =
  if _isFinancialQuery (join values)
  then (Returned (createTextUtterance speakerUri senderUri (reportOf env (join values))),
        afterSearch env (join values) w)
  else (Returned (createTextUtterance speakerUri senderUri scopeMessage), w).
Proof.
  intros Hne. destruct values as [| v values]; [congruence |].
  unfold _handleFinancialQuery. cbn [map].
  change (TokenObject v :: map TokenObject values)
    with (map TokenObject (v :: values)).
  unfold tryCatch, bind. rewrite tokenValues_objects.
  destruct (_isFinancialQuery (join (v :: values))); simpl.
  - rewrite _searchSEC_run. reflexivity.
  - reflexivity.
Qed.

End Runs.

(** ** The keyword gate and the handler *)

Lemma gate_false `{CaseMapping} query :
  _isFinancialQuery query = false <->
  forall keyword,
    In keyword financialIndicators -> ~ occursIn keyword (toLowerCase query).
Proof.
  unfold _isFinancialQuery. rewrite existsb_false_forall. split.
  - intros Hnone keyword Hin Hocc. apply includes_occursIn in Hocc.
    rewrite (Hnone keyword Hin) in Hocc. discriminate.
  - intros Hnone keyword Hin.
    destruct (includes (toLowerCase query) keyword) eqn:Hinc; [| reflexivity].
    apply includes_occursIn in Hinc. destruct (Hnone keyword Hin Hinc).
Qed.

(** Any call of [_searchSEC] leaves a [CallLookup] in the trace, so an
    unchanged world means it was not called. *)
Lemma _searchSEC_visible `{CaseMapping} env companyName w :
  In (CallLookup companyName) (trace (snd (_searchSEC env companyName w))).
Proof.
  rewrite _searchSEC_run. unfold afterSearch. simpl.
  destruct (_fallbackCompanyLookup companyName); simpl;
    rewrite ?in_app_iff; simpl; auto 6.
Qed.

(** C2: when the lower-cased query (the joined token values) contains
    none of the 18 keywords, the handler returns the scope-guidance
    message and leaves the world as it found it: nothing is added to
    the trace (no sleep, no lookup, no fetch) and [lastRequestTime] is
    untouched. *)
Theorem C2_out_of_scope_untouched `{CaseMapping}
  (speakerUri senderUri : jsstring) (env : Env)
  (values : list (option jsstring)) (w : World) :
  values <> [] ->
  (forall keyword,
     In keyword financialIndicators ->
     ~ occursIn keyword (toLowerCase (join values))) ->
  length financialIndicators = 18 /\
  _handleFinancialQuery speakerUri senderUri env (Some (map TokenObject values)) w =
  (Returned {| speaker := speakerUri; text := scopeMessage; to := senderUri |}, w).
Proof.
  intros Hne Hnone. split; [reflexivity |].
  rewrite _handleFinancialQuery_run by exact Hne.
  apply gate_false in Hnone. rewrite Hnone. reflexivity.
Qed.

Lemma C2_out_of_scope_untouched_witness :
  _handleFinancialQuery (u "agent") (u "user") (answering (FetchThrows JsNonError))
    (Some [TokenObject (Some (u "Apple")); TokenObject None; TokenObject (Some (u " Inc"))])
    afresh =
  (Returned {| speaker := u "agent"; text := scopeMessage; to := u "user" |}, afresh).
Proof.
  apply (@C2_out_of_scope_untouched asciiCase (u "agent") (u "user")
           (answering (FetchThrows JsNonError))
           [Some (u "Apple"); None; Some (u " Inc")] afresh).
  - discriminate.
  - apply gate_false. vm_compute. reflexivity.
Defined.

Lemma fetchFailure_delivered r : fetchFailure r -> delivered r = None.
Proof.
  intros Hfail. destruct Hfail as [e | status body Hok | status e | status]; simpl.
  - reflexivity.
  - destruct body as [e | [submissions |]]; try reflexivity.
    rewrite Hok. reflexivity.
  - reflexivity.
  - reflexivity.
Qed.

(** C6: whatever the tokens, the environment and the world, the
    handler returns a text utterance addressed to the sender and never
    throws.  Its text is one of the fixed messages, a fallback report
    or a full report; a token that cannot be read ends in the apology;
    an in-scope query whose company is unresolved, or resolved with a
    failed fetch (network error, 404 or other status, bad body), ends
    in the fallback report. *)
Theorem C6_handler_never_throws `{CaseMapping}
  (speakerUri senderUri : jsstring) (env : Env)
  (tokens : option (list Token)) (w : World) :
  exists message w',
    _handleFinancialQuery speakerUri senderUri env tokens w =
    (Returned {| speaker := speakerUri; text := message; to := senderUri |}, w') /\
    (message = needNameMessage \/ message = scopeMessage \/ message = errorMessage \/
     (exists companyName, message = _fallbackCompanySearch companyName) \/
     (exists companyName cikData submissions,
        message = _formatSECResults companyName cikData submissions)) /\
    (forall list, tokens = Some list -> In Nullish list -> message = errorMessage) /\
    (forall values,
       tokens = Some (map TokenObject values) -> values <> [] ->
       _isFinancialQuery (join values) = true ->
       (_fallbackCompanyLookup (join values) = None \/
        exists cikData,
          _fallbackCompanyLookup (join values) = Some cikData /\
          fetchFailure (respond env (submissionsUrl (cik cikData)))) ->
       message = _fallbackCompanySearch (join values)).
Proof.
  destruct tokens as [[| t rest] |].
  - exists needNameMessage, w. split; [reflexivity |]. split; [auto |].
    split.
    + intros list Heq Hin. injection Heq as <-. destruct Hin.
    + intros values Heq Hne. destruct values; [congruence | discriminate].
  - unfold _handleFinancialQuery, tryCatch, bind.
    pose proof (tokenValues_world (t :: rest) w) as Hworld.
    destruct (tokenValues (t :: rest) w) as [[values | e] w1] eqn:Hrun;
      simpl in Hworld; subst w1.
    + destruct (_isFinancialQuery (join values)) eqn:Hgate; simpl.
      * rewrite _searchSEC_run.
        exists (reportOf env (join values)), (afterSearch env (join values) w).
        split; [reflexivity |]. split.
        { unfold reportOf.
          destruct (_fallbackCompanyLookup (join values)) as [cikData |]; [| eauto 6].
          destruct (delivered (respond env (submissionsUrl (cik cikData))));
            eauto 8. }
        split.
        { intros list Heq Hin. injection Heq as <-.
          destruct (tokenValues_nullish (t :: rest) w Hin) as [e He]. congruence. }
        { intros values' Heq Hne _ Hfail. injection Heq as Heq.
          rewrite Heq, tokenValues_objects in Hrun. injection Hrun as <-.
          unfold reportOf. destruct Hfail as [Hnone | [cikData [Hsome Hfail]]].
          - rewrite Hnone. reflexivity.
          - rewrite Hsome, (fetchFailure_delivered _ Hfail). reflexivity. }
      * exists scopeMessage, w. split; [reflexivity |]. split; [auto |]. split.
        { intros list Heq Hin. injection Heq as <-.
          destruct (tokenValues_nullish (t :: rest) w Hin) as [e He]. congruence. }
        { intros values' Heq Hne Hyes. injection Heq as Heq.
          rewrite Heq, tokenValues_objects in Hrun. injection Hrun as <-.
          congruence. }
    + exists errorMessage, w. split; [reflexivity |]. split; [auto |]. split.
      * reflexivity.
      * intros values' Heq. injection Heq as Heq.
        rewrite Heq, tokenValues_objects in Hrun. discriminate.
  - exists needNameMessage, w. split; [reflexivity |]. split; [auto |]. split.
    + discriminate.
    + discriminate.
Qed.

(** An in-scope query for a known company whose fetch answers 404. *)
Lemma C6_handler_never_throws_witness :
  exists w',
    _handleFinancialQuery (u "agent") (u "user")
      (answering (Response 404 (JsonThrows JsNonError)))
      (Some [TokenObject (Some (u "Tesla ")); TokenObject (Some (u "earnings"))]) afresh =
    (Returned {| speaker := u "agent";
                 text := _fallbackCompanySearch (u "Tesla earnings");
                 to := u "user" |}, w').
Proof.
  destruct (@C6_handler_never_throws asciiCase (u "agent") (u "user")
              (answering (Response 404 (JsonThrows JsNonError)))
              (Some [TokenObject (Some (u "Tesla ")); TokenObject (Some (u "earnings"))])
              afresh) as [message [w' [Hrun [_ [_ Hfallback]]]]].
  exists w'. rewrite Hrun.
  rewrite (Hfallback [Some (u "Tesla "); Some (u "earnings")]).
  - reflexivity.
  - reflexivity.
  - discriminate.
  - vm_compute. reflexivity.
  - right. exists (mkCompany "0001318605" "TSLA" "Tesla, Inc."). split.
    + vm_compute. reflexivity.
    + apply HttpFailure. reflexivity.
Defined.

(** ** The fallback report *)

Lemma occursIn_trans p q s : occursIn p q -> occursIn q s -> occursIn p s.
Proof.
  intros [pre [post ->]] [pre' [post' ->]].
  exists (pre' ++ pre), (post ++ post'). rewrite <- !app_assoc. reflexivity.
Qed.

Lemma occursIn_inside pre p post : occursIn p (pre ++ p ++ post).
Proof. exists pre, post. reflexivity. Qed.

Lemma fetchTimes_app a b : fetchTimes (a ++ b) = fetchTimes a ++ fetchTimes b.
Proof.
  induction a as [| [ms | name | time url] a IH]; simpl; try exact IH.
  - reflexivity.
  - rewrite IH. reflexivity.
Qed.

Lemma fetchTimes_afterRateLimit env w :
  fetchTimes (trace (afterRateLimit env w)) = fetchTimes (trace w).
Proof.
  unfold afterRateLimit.
  destruct (0 <? rateLimitDelay - (clock w - lastRequestTime w))%Z; simpl.
  - rewrite fetchTimes_app. simpl. apply app_nil_r.
  - reflexivity.
Qed.

(** C7: for a name the directory does not resolve, [_searchSEC]
    returns the fallback report without fetching, the handler passes
    it on when the query is in scope, and the report contains the name
    as given and the four alternative-reason bullets. *)
Theorem C7_unresolved_fallback `{CaseMapping}
  (env : Env) (companyName : jsstring) (w : World) :
  _fallbackCompanyLookup companyName = None ->
  let report := _fallbackCompanySearch companyName in
  (exists w',
     _searchSEC env companyName w = (Returned report, w') /\
     fetchTimes (trace w') = fetchTimes (trace w)) /\
  (forall speakerUri senderUri values,
     values <> [] -> join values = companyName ->
     _isFinancialQuery companyName = true ->
     fst (_handleFinancialQuery speakerUri senderUri env
            (Some (map TokenObject values)) w) =
     Returned {| speaker := speakerUri; text := report; to := senderUri |}) /\
  occursIn companyName report /\
  occursIn (bullet ++ u " Company '" ++ companyName ++
            u "' not found in SEC EDGAR database" ++ nl) report /\
  occursIn (u "  - Private company (not required to file with SEC)" ++ nl) report /\
  occursIn (u "  - Foreign company not listed on US exchanges" ++ nl) report /\
  occursIn (u "  - Subsidiary of another public company" ++ nl) report /\
  occursIn (u "  - Different legal name than search term" ++ nl ++ nl) report.
Proof.
  intros Hnone report.
  assert (Hline :
    occursIn (bullet ++ u " Company '" ++ companyName ++
              u "' not found in SEC EDGAR database" ++ nl) report).
  { unfold report, _fallbackCompanySearch. cbv zeta. find_chunk. }
  split.
  { exists (afterSearch env companyName w). split.
    - rewrite _searchSEC_run. unfold reportOf. rewrite Hnone. reflexivity.
    - unfold afterSearch. rewrite Hnone. unfold afterLookup. simpl.
      rewrite fetchTimes_app, fetchTimes_afterRateLimit. simpl. apply app_nil_r. }
  split.
  { intros speakerUri senderUri values Hne Hjoin Hgate.
    rewrite _handleFinancialQuery_run by exact Hne.
    rewrite Hjoin, Hgate. simpl. unfold reportOf. rewrite Hnone. reflexivity. }
  split.
  { apply occursIn_trans with (2 := Hline).
    exact (occursIn_inside (bullet ++ u " Company '") companyName
             (u "' not found in SEC EDGAR database" ++ nl)). }
  split; [exact Hline |].
  unfold report, _fallbackCompanySearch. cbv zeta.
  repeat split; find_chunk.
Qed.

Lemma C7_unresolved_fallback_witness :
  _fallbackCompanyLookup (u "NotARealCompany123") = None /\
  fst (_handleFinancialQuery (u "agent") (u "user")
         (answering (Response 200 (JsonValue (Some lateReports))))
         (Some [TokenObject (Some (u "NotARealCompany123"))]) afresh) =
  Returned {| speaker := u "agent";
              text := _fallbackCompanySearch (u "NotARealCompany123");
              to := u "user" |}.
Proof.
  assert (Hnone : _fallbackCompanyLookup (u "NotARealCompany123") = None)
    by (vm_compute; reflexivity).
  split; [exact Hnone |].
  destruct (@C7_unresolved_fallback asciiCase
              (answering (Response 200 (JsonValue (Some lateReports))))
              (u "NotARealCompany123") afresh Hnone) as [_ [Hhandler _]].
  apply (Hhandler (u "agent") (u "user") [Some (u "NotARealCompany123")]).
  - discriminate.
  - reflexivity.
  - vm_compute. reflexivity.
Defined.

(** ** The rate limiter *)

Lemma afterRateLimit_stamp env w :
  clock (afterRateLimit env w) = lastRequestTime (afterRateLimit env w).
Proof.
  unfold afterRateLimit.
  destruct (0 <? rateLimitDelay - (clock w - lastRequestTime w))%Z; reflexivity.
Qed.

(** A query that reaches [fetch] stamps it with the time the rate
    limiter recorded, and ends when the fetch does. *)
Lemma afterSearch_resolved `{CaseMapping} env companyName cikData w :
  _fallbackCompanyLookup companyName = Some cikData ->
  let w' := afterSearch env companyName w in
  fetchTimes (trace w') = fetchTimes (trace w) ++ [lastRequestTime w'] /\
  lastRequestTime w' = lastRequestTime (afterRateLimit env w) /\
  clock w' = (lastRequestTime w' + fetchLatency env)%Z.
Proof.
  intros Hsome w'. unfold w', afterSearch. rewrite Hsome.
  unfold afterFetch, afterLookup. cbn [clock lastRequestTime trace].
  rewrite !fetchTimes_app, fetchTimes_afterRateLimit. cbn [fetchTimes].
  rewrite app_nil_r, afterRateLimit_stamp. repeat split.
Qed.

(** C8: [_rateLimit] never throws.  With [elapsed] the time since
    [lastRequestTime], it asks the timer for exactly
    [max 0 (3000 - elapsed)] (no sleep at all when that is 0), the
    clock moves by that much plus the timer's lateness, and the time
    then read becomes the new [lastRequestTime]; when 3000 ms or more
    have elapsed the clock and the trace are left alone.  Two
    consecutive recorded times are therefore at least 3000 ms apart
    when the timer is not early.  For two queries run back to back
    that both reach [fetch], the second fetch starts 3000 ms (plus
    lateness) after the first when the first took less than 3000 ms,
    and right when the first ends otherwise. *)
Theorem C8_rate_limit_spacing `{CaseMapping} :
  (forall env w,
     let elapsed := (clock w - lastRequestTime w)%Z in
     let wait := Z.max 0 (rateLimitDelay - elapsed) in
     exists w',
       _rateLimit env w = (Returned tt, w') /\
       trace w' = trace w ++ (if (0 <? wait)%Z then [Sleep wait] else []) /\
       clock w' = (clock w + wait + (if (0 <? wait)%Z then timerLate env else 0))%Z /\
       lastRequestTime w' = clock w' /\
       ((rateLimitDelay <= elapsed)%Z -> clock w' = clock w /\ trace w' = trace w) /\
       ((0 <= timerLate env)%Z ->
        (rateLimitDelay <= lastRequestTime w' - lastRequestTime w)%Z)) /\
  (forall env1 env2 name1 name2 data1 data2 w,
     _fallbackCompanyLookup name1 = Some data1 ->
     _fallbackCompanyLookup name2 = Some data2 ->
     let w1 := snd (_searchSEC env1 name1 w) in
     let w2 := snd (_searchSEC env2 name2 w1) in
     let first := lastRequestTime w1 in
     let second := lastRequestTime w2 in
     fetchTimes (trace w2) = fetchTimes (trace w) ++ [first; second] /\
     ((fetchLatency env1 < rateLimitDelay)%Z ->
      second = (first + rateLimitDelay + timerLate env2)%Z) /\
     ((rateLimitDelay <= fetchLatency env1)%Z ->
      second = (first + fetchLatency env1)%Z) /\
     ((0 <= timerLate env2)%Z -> (rateLimitDelay <= second - first)%Z)).
Proof.
  split.
  - intros env w elapsed wait. exists (afterRateLimit env w).
    split; [apply _rateLimit_run |].
    unfold afterRateLimit, wait, elapsed, rateLimitDelay.
    destruct (0 <? 3000 - (clock w - lastRequestTime w))%Z eqn:Hwait.
    + apply Z.ltb_lt in Hwait.
      rewrite Z.max_r by lia.
      assert (Hpos : (0 <? 3000 - (clock w - lastRequestTime w))%Z = true)
        by (apply Z.ltb_lt; lia).
      rewrite Hpos. cbn [clock lastRequestTime trace].
      repeat split; try reflexivity; lia.
    + apply Z.ltb_ge in Hwait.
      rewrite Z.max_l by lia. cbn [clock lastRequestTime trace Z.ltb Z.compare].
      repeat split; try lia; try reflexivity. symmetry. apply app_nil_r.
  - intros env1 env2 name1 name2 data1 data2 w Hone Htwo w1 w2 first second.
    unfold second, first, w2, w1. rewrite !_searchSEC_run. cbn [snd].
    set (v1 := afterSearch env1 name1 w).
    destruct (afterSearch_resolved env1 name1 data1 w Hone) as [Htimes1 [Hlast1 Hclock1]].
    destruct (afterSearch_resolved env2 name2 data2 v1 Htwo) as [Htimes2 [Hlast2 _]].
    fold v1 in Htimes1, Hlast1, Hclock1.
    split.
    + rewrite Htimes2, Htimes1, <- app_assoc. reflexivity.
    + rewrite Hlast2. unfold afterRateLimit.
      rewrite Hclock1. unfold rateLimitDelay.
      destruct (0 <? 3000 - (lastRequestTime v1 + fetchLatency env1 -
                             lastRequestTime v1))%Z eqn:Hwait;
        cbn [lastRequestTime].
      * apply Z.ltb_lt in Hwait. repeat split; intros; lia.
      * apply Z.ltb_ge in Hwait. repeat split; intros; lia.
Qed.

Lemma C8_rate_limit_spacing_witness :
  let w1 := snd (_searchSEC (answering (Response 200 (JsonValue (Some lateReports))))
                   (u "Apple stock") afresh) in
  let w2 := snd (_searchSEC (answering (FetchThrows JsNonError)) (u "Tesla stock") w1) in
  (fetchLatency (answering (Response 200 (JsonValue (Some lateReports)))) < rateLimitDelay)%Z /\
  lastRequestTime w2 = (lastRequestTime w1 + rateLimitDelay + 0)%Z.
Proof.
  intros w1 w2.
  assert (Hshort : (fetchLatency (answering (Response 200 (JsonValue (Some lateReports))))
                    < rateLimitDelay)%Z) by reflexivity.
  split; [exact Hshort |].
  destruct (@C8_rate_limit_spacing asciiCase) as [_ Hpair].
  destruct (Hpair (answering (Response 200 (JsonValue (Some lateReports))))
                  (answering (FetchThrows JsNonError))
                  (u "Apple stock") (u "Tesla stock")
                  appleData (mkCompany "0001318605" "TSLA" "Tesla, Inc.") afresh)
    as [_ [Hgap _]].
  - vm_compute. reflexivity.
  - vm_compute. reflexivity.
  - exact (Hgap Hshort).
Defined.

(** ** The report sections *)

Lemma fold_left_append {A} (g : A -> jsstring) (l : list A) (start : jsstring) :
  fold_left (fun result x => result ++ g x) l start = start ++ concat (map g l).
Proof.
  revert start. induction l as [| x l IH]; intros start; simpl.
  - symmetry. apply app_nil_r.
  - rewrite IH, <- app_assoc. reflexivity.
Qed.

Lemma keyFilingStep_append forms filingDates accessionNumbers found i :
  keyFilingStep forms filingDates accessionNumbers found i =
  found ++ keyFilingAt forms filingDates accessionNumbers i.
Proof.
  unfold keyFilingAt, keyFilingStep.
  destruct (nth_error forms i) as [form |]; [| symmetry; apply app_nil_r].
  destruct (arrayIncludes keyForms form && (i <? length filingDates));
    [reflexivity | symmetry; apply app_nil_r].
Qed.

Lemma fold_keyFilingStep forms filingDates accessionNumbers indices found :
  fold_left (keyFilingStep forms filingDates accessionNumbers) indices found =
  found ++ flat_map (keyFilingAt forms filingDates accessionNumbers) indices.
Proof.
  revert found. induction indices as [| i indices IH]; intros found; simpl.
  - symmetry. apply app_nil_r.
  - rewrite IH, keyFilingStep_append, <- app_assoc. reflexivity.
Qed.

Lemma recentKeyFilings_indices forms filingDates accessionNumbers :
  recentKeyFilings forms filingDates accessionNumbers =
  flat_map (keyFilingAt forms filingDates accessionNumbers)
           (seq 0 (Nat.min (length forms) 20)).
Proof. unfold recentKeyFilings. apply fold_keyFilingStep. Qed.

Lemma arrayIncludes_In arr x : arrayIncludes arr x = true <-> In x arr.
Proof.
  unfold arrayIncludes. rewrite existsb_exists. split.
  - intros [y [Hy Heq]]. apply str_eqb_eq in Heq. subst y. exact Hy.
  - intros Hx. exists x. split; [exact Hx | apply str_eqb_refl].
Qed.

(** Every element the loop pushes comes from an index that is inside
    both [forms] and [filingDates]; its date is the element read there
    and its accession number is the one read there, or ['N/A'] when
    the index is outside [accessionNumbers]. *)
Lemma recentKeyFilings_bounds forms filingDates accessionNumbers filing :
  In filing (recentKeyFilings forms filingDates accessionNumbers) ->
  exists i date,
    i < 20 /\ i < length forms /\ i < length filingDates /\
    nth_error forms i = Some (KeyFiling.form filing) /\
    In (KeyFiling.form filing) keyForms /\
    nth_error filingDates i = Some date /\
    KeyFiling.date filing = Some date /\
    KeyFiling.accession filing = Some (nth i accessionNumbers (u "N/A")).
Proof.
  rewrite recentKeyFilings_indices, in_flat_map.
  intros [i [Hi Hin]]. apply in_seq in Hi.
  unfold keyFilingAt, keyFilingStep in Hin.
  destruct (nth_error forms i) as [form |] eqn:Hform; [| destruct Hin].
  destruct (arrayIncludes keyForms form) eqn:Hkey; [| destruct Hin].
  destruct (i <? length filingDates) eqn:Hdate; [| destruct Hin].
  apply Nat.ltb_lt in Hdate. simpl in Hin. destruct Hin as [<- | []].
  destruct (nth_error filingDates i) as [date |] eqn:Hnth.
  2: { apply nth_error_None in Hnth. lia. }
  exists i, date. cbn [KeyFiling.form KeyFiling.date KeyFiling.accession].
  repeat split; try lia; try assumption.
  - apply arrayIncludes_In. exact Hkey.
  - destruct (i <? length accessionNumbers) eqn:Hacc.
    + apply Nat.ltb_lt in Hacc.
      rewrite (nth_error_nth' accessionNumbers (u "N/A") Hacc). reflexivity.
    + apply Nat.ltb_ge in Hacc. rewrite nth_overflow by exact Hacc. reflexivity.
Qed.

Lemma nth_error_combine {A B} (xs : list A) (ys : list B) i :
  nth_error (combine xs ys) i =
  match nth_error xs i, nth_error ys i with
  | Some x, Some y => Some (x, y)
  | _, _ => None
  end.
Proof.
  revert ys i. induction xs as [| x xs IH]; intros ys i.
  - destruct i; reflexivity.
  - destruct ys as [| y ys].
    + destruct i as [| i]; simpl; [reflexivity |].
      destruct (nth_error xs i); destruct i; reflexivity.
    + destruct i as [| i]; simpl; [reflexivity | apply IH].
Qed.

Lemma flat_map_map {A B C} (f : B -> list C) (g : A -> B) l :
  flat_map f (map g l) = flat_map (fun x => f (g x)) l.
Proof.
  induction l as [| x l IH]; simpl; [reflexivity | rewrite IH; reflexivity].
Qed.

(** Picking by index over [0 .. n-1] is filtering the first [n]
    elements. *)
Lemma pick_by_index {A B} (p : A -> bool) (g : A -> B) (l : list A) n :
  flat_map (fun i => match nth_error l i with
                     | Some x => if p x then [g x] else []
                     | None => []
                     end) (seq 0 n) =
  map g (filter p (firstn n l)).
Proof.
  revert l. induction n as [| n IH]; intros l; [reflexivity |].
  destruct l as [| x l].
  - simpl. clear IH. generalize 1. induction n as [| n IHn]; intros k; simpl.
    + reflexivity.
    + destruct k; simpl; apply IHn.
  - cbn [seq flat_map firstn filter nth_error].
    rewrite <- seq_shift, flat_map_map. cbn [nth_error]. rewrite IH.
    destruct (p x); reflexivity.
Qed.

Lemma shownPart_at forms filingDates accessionNumbers i :
  map shownPart (keyFilingAt forms filingDates accessionNumbers i) =
  match nth_error (combine forms filingDates) i with
  | Some entry => if isKeyEntry entry then [readEntry entry] else []
  | None => []
  end.
Proof.
  rewrite nth_error_combine. unfold keyFilingAt, keyFilingStep.
  destruct (nth_error forms i) as [form |]; [| reflexivity].
  destruct (i <? length filingDates) eqn:Hdate.
  - apply Nat.ltb_lt in Hdate.
    destruct (nth_error filingDates i) as [date |] eqn:Hnth.
    2: { apply nth_error_None in Hnth. lia. }
    unfold isKeyEntry. cbn [fst]. rewrite andb_true_r.
    destruct (arrayIncludes keyForms form); reflexivity.
  - apply Nat.ltb_ge in Hdate. apply nth_error_None in Hdate.
    rewrite Hdate, andb_false_r. reflexivity.
Qed.

Lemma map_flat_map {A B C} (f : B -> C) (g : A -> list B) l :
  map f (flat_map g l) = flat_map (fun x => map f (g x)) l.
Proof.
  induction l as [| x l IH]; simpl; [reflexivity |].
  rewrite map_app, IH. reflexivity.
Qed.

Lemma firstn_min_combine {A B} (xs : list A) (ys : list B) n :
  firstn (Nat.min (length xs) n) (combine xs ys) = firstn n (combine xs ys).
Proof.
  destruct (Nat.le_ge_cases n (length xs)) as [Hle | Hge].
  - rewrite Nat.min_r by exact Hle. reflexivity.
  - rewrite Nat.min_l by exact Hge.
    assert (Hlen : length (combine xs ys) <= length xs).
    { rewrite length_combine. apply Nat.le_min_l. }
    rewrite !firstn_all2 by lia. reflexivity.
Qed.

(** The loop refines the specification's wording: what it collects
    shows exactly the key entries among the first 20 aligned entries,
    in their order. *)
Lemma recentKeyFilings_refines forms filingDates accessionNumbers :
  map shownPart (recentKeyFilings forms filingDates accessionNumbers) =
  map readEntry (keyEntriesOfFirst20 (combine forms filingDates)).
Proof.
  rewrite recentKeyFilings_indices, map_flat_map.
  rewrite (flat_map_ext _ _ (shownPart_at forms filingDates accessionNumbers)).
  rewrite pick_by_index, firstn_min_combine. reflexivity.
Qed.

Lemma filingLine_shownPart filing entry :
  shownPart filing = readEntry entry -> filingLine filing = entryLine entry.
Proof.
  destruct filing as [form date accession]. destruct entry as [form' date'].
  unfold shownPart, readEntry. simpl. intros Heq. injection Heq as -> ->. reflexivity.
Qed.

Lemma lines_of_entries filings entries :
  map shownPart filings = map readEntry entries ->
  map filingLine filings = map entryLine entries.
Proof.
  revert entries. induction filings as [| filing filings IH];
    intros [| entry entries]; simpl; try discriminate; [reflexivity |].
  intros Heq. inversion Heq as [[Hform Hdate Htail]].
  rewrite (IH _ Htail). f_equal.
  apply filingLine_shownPart. unfold shownPart, readEntry. congruence.
Qed.

(** The Recent SEC Filings section, in terms of the entries shown. *)
Lemma _analyzeRecentFilings_shape submissions :
  _analyzeRecentFilings submissions =
  u "**Recent SEC Filings:**" ++ nl ++
  match recentOf submissions with
  | None => noRecentLine
  | Some _ =>
      match shownEntries (entriesOf submissions) with
      | [] => noKeyLine
      | _ => concat (map entryLine (shownEntries (entriesOf submissions)))
      end ++ nl
  end.
Proof.
  unfold _analyzeRecentFilings, entriesOf, shownEntries. cbv zeta.
  destruct (recentOf submissions) as [recentFilings |].
  2: { rewrite <- app_assoc. reflexivity. }
  set (forms := orEmpty (form recentFilings)).
  set (filingDates := orEmpty (filingDate recentFilings)).
  set (accessionNumbers := orEmpty (accessionNumber recentFilings)).
  pose proof (recentKeyFilings_refines forms filingDates accessionNumbers) as Href.
  set (found := recentKeyFilings forms filingDates accessionNumbers) in *.
  set (kept := keyEntriesOfFirst20 (combine forms filingDates)) in *.
  assert (Hlines : map filingLine (firstn 5 found) = map entryLine (firstn 5 kept)).
  { apply lines_of_entries. rewrite <- !firstn_map, Href. reflexivity. }
  destruct found as [| filing found].
  - destruct kept as [| entry kept]; [| discriminate].
    cbn [length Nat.ltb Nat.leb firstn]. rewrite <- !app_assoc. reflexivity.
  - destruct kept as [| entry kept]; [discriminate |].
    cbn [length Nat.ltb Nat.leb].
    rewrite fold_left_append, Hlines, <- !app_assoc. reflexivity.
Qed.

Lemma _extractFinancialHighlights_counts submissions recentFilings forms :
  recentOf submissions = Some recentFilings ->
  form recentFilings = Some forms ->
  _extractFinancialHighlights submissions =
  highlightsHead ++
  annualLine (length (filter (fun form => str_eqb form (u "10-K")) forms)) ++
  quarterlyLine (length (filter (fun form => str_eqb form (u "10-Q")) forms)) ++
  highlightsTail.
Proof.
  intros Hrecent Hform. unfold _extractFinancialHighlights. cbv zeta.
  rewrite Hrecent. destruct recentFilings as [optForms dates numbers].
  simpl in Hform. subst optForms.
  unfold highlightsHead, highlightsTail, annualLine, quarterlyLine.
  rewrite <- !app_assoc. reflexivity.
Qed.

Lemma _extractFinancialHighlights_plain submissions :
  (recentOf submissions = None \/
   exists recentFilings,
     recentOf submissions = Some recentFilings /\ form recentFilings = None) ->
  _extractFinancialHighlights submissions = highlightsHead ++ highlightsTail.
Proof.
  intros Hmissing. unfold _extractFinancialHighlights. cbv zeta.
  destruct Hmissing as [-> | [recentFilings [-> Hform]]].
  - unfold highlightsHead, highlightsTail. rewrite <- !app_assoc. reflexivity.
  - destruct recentFilings as [optForms dates numbers]. simpl in Hform.
    subst optForms.
    unfold highlightsHead, highlightsTail. rewrite <- !app_assoc. reflexivity.
Qed.

Lemma filter_length_occurrences x forms :
  length (filter (fun form => str_eqb form x) forms) = occurrences x forms.
Proof.
  unfold occurrences. induction forms as [| form forms IH]; simpl; [reflexivity |].
  destruct (jsstring_eq_dec form x) as [Heq | Hneq].
  - subst form. rewrite str_eqb_refl. simpl. rewrite IH. reflexivity.
  - destruct (str_eqb form x) eqn:Hs.
    + apply str_eqb_eq in Hs. contradiction.
    + exact IH.
Qed.

Lemma _formatSECResults_shape companyName cikData submissions :
  _formatSECResults companyName cikData submissions =
  headerAndIdentity companyName cikData ++
  match description submissions with
  | Some (c :: d) =>
      descriptionLine (if 300 <? length (c :: d)
                       then firstn 300 (c :: d) ++ u "..."
                       else c :: d)
  | _ => []
  end ++
  afterDescription submissions.
Proof.
  unfold _formatSECResults, headerAndIdentity, afterDescription, descriptionLine.
  cbv zeta.
  destruct (description submissions) as [[| c d] |];
    rewrite <- !app_assoc; reflexivity.
Qed.

Lemma occursIn_report_tail part companyName cikData submissions :
  occursIn part (afterDescription submissions) ->
  occursIn part (_formatSECResults companyName cikData submissions).
Proof.
  intros Hpart. rewrite _formatSECResults_shape.
  apply occursIn_app_r, occursIn_app_r. exact Hpart.
Qed.

Lemma known_ticker cikData :
  In cikData (map snd knownCompanies) ->
  orElse (Some (ticker cikData)) (u "N/A") = ticker cikData.
Proof.
  intros Hin. simpl in Hin.
  repeat (destruct Hin as [<- | Hin]; [reflexivity |]).
  destruct Hin.
Qed.

Lemma shownEntries_short entries : length (shownEntries entries) <= 5.
Proof. unfold shownEntries. apply firstn_le_length. Qed.

Lemma shownEntries_key entries :
  Forall (fun entry => In (fst entry) keyForms) (shownEntries entries).
Proof.
  apply Forall_forall. intros entry Hin. unfold shownEntries in Hin.
  apply (In_nth_error) in Hin. destruct Hin as [i Hi].
  assert (Hkept : In entry (keyEntriesOfFirst20 entries)).
  { apply nth_error_In with (n := i).
    destruct (Nat.lt_ge_cases i 5) as [Hlt | Hge].
    - rewrite nth_error_firstn in Hi. apply Nat.ltb_lt in Hlt.
      rewrite Hlt in Hi. exact Hi.
    - assert (Hnone : nth_error (firstn 5 (keyEntriesOfFirst20 entries)) i = None).
      { apply nth_error_None. pose proof (firstn_le_length 5 (keyEntriesOfFirst20 entries)).
        lia. }
      congruence. }
  unfold keyEntriesOfFirst20 in Hkept. apply filter_In in Hkept.
  destruct Hkept as [_ Hkey]. apply arrayIncludes_In. exact Hkey.
Qed.

(** C4: for a name the directory resolves and a fetch that delivers
    submissions, [_searchSEC] returns the full report.  The report
    carries the title, ticker and CIK of the table entry as stored,
    and its Recent SEC Filings section prints one line per shown
    entry, where the shown entries are the first 5 of those among the
    first 20 aligned (form, date) entries whose form is a key form, in
    their order: at most 5 lines, each for 10-K, 10-Q, 8-K or
    DEF 14A. *)
Theorem C4_full_report `{CaseMapping}
  (env : Env) (companyName : jsstring) (cikData : CompanyData)
  (submissions : CompanySubmissions) (w : World) :
  _fallbackCompanyLookup companyName = Some cikData ->
  delivered (respond env (submissionsUrl (cik cikData))) = Some submissions ->
  let report := _formatSECResults companyName cikData submissions in
  let shown := shownEntries (entriesOf submissions) in
  fst (_searchSEC env companyName w) = Returned report /\
  In cikData (map snd knownCompanies) /\
  occursIn (bullet ++ u " Official Name: " ++ title cikData ++ nl) report /\
  occursIn (bullet ++ u " Ticker Symbol: " ++ ticker cikData ++ nl) report /\
  occursIn (bullet ++ u " CIK: " ++ cik cikData ++ nl) report /\
  occursIn (_analyzeRecentFilings submissions) report /\
  _analyzeRecentFilings submissions =
    u "**Recent SEC Filings:**" ++ nl ++
    match recentOf submissions with
    | None => noRecentLine
    | Some _ =>
        match shown with
        | [] => noKeyLine
        | _ => concat (map entryLine shown)
        end ++ nl
    end /\
  shown =
    firstn 5 (filter (fun entry => arrayIncludes keyForms (fst entry))
                     (firstn 20 (entriesOf submissions))) /\
  length shown <= 5 /\
  Forall (fun entry => In (fst entry) keyForms) shown /\
  keyForms = [u "10-K"; u "10-Q"; u "8-K"; u "DEF 14A"].
Proof.
  intros Hsome Hfetch report shown.
  assert (Hknown : In cikData (map snd knownCompanies)).
  { unfold _fallbackCompanyLookup in Hsome.
    apply lookupLoop_In in Hsome. exact Hsome. }
  split.
  { rewrite _searchSEC_run. unfold reportOf. rewrite Hsome, Hfetch. reflexivity. }
  split; [exact Hknown |].
  split.
  { unfold report, _formatSECResults. cbv zeta.
    destruct (description submissions) as [[| c d] |]; find_chunk. }
  split.
  { rewrite <- (known_ticker cikData Hknown).
    unfold report, _formatSECResults. cbv zeta.
    destruct (description submissions) as [[| c d] |]; find_chunk. }
  split.
  { unfold report, _formatSECResults. cbv zeta.
    destruct (description submissions) as [[| c d] |]; find_chunk. }
  split.
  { unfold report, _formatSECResults. cbv zeta. find_chunk. }
  split; [apply _analyzeRecentFilings_shape |].
  split; [reflexivity |].
  split; [apply shownEntries_short |].
  split; [apply shownEntries_key | reflexivity].
Qed.

Lemma C4_full_report_witness :
  fst (_searchSEC (answering (Response 200 (JsonValue (Some raggedSubmissions))))
         (u "Apple stock") afresh) =
  Returned (_formatSECResults (u "Apple stock") appleData raggedSubmissions) /\
  shownEntries (entriesOf raggedSubmissions) =
  [ (u "10-K", u "2024-11-01"); (u "10-Q", u "2024-08-02"); (u "8-K", u "2024-08-01");
    (u "DEF 14A", u "2024-01-11"); (u "10-Q", u "2024-05-03") ].
Proof.
  split; [| vm_compute; reflexivity].
  apply (@C4_full_report asciiCase
           (answering (Response 200 (JsonValue (Some raggedSubmissions))))
           (u "Apple stock") appleData raggedSubmissions afresh).
  - vm_compute. reflexivity.
  - reflexivity.
Defined.

(** C5, as the specification states it, fails on the code: a fetch
    that delivers submissions without a form array yields a Financial
    Data Analysis section with no count lines at all. *)
Lemma C5_no_counts_without_forms :
  delivered (respond (answering (Response 200 (JsonValue (Some noSubmissions))))
                     (submissionsUrl (cik appleData))) = Some noSubmissions /\
  _extractFinancialHighlights noSubmissions = highlightsHead ++ highlightsTail /\
  includes (_extractFinancialHighlights noSubmissions) (u "Annual Reports (10-K): ") = false /\
  includes (_extractFinancialHighlights noSubmissions) (u "Quarterly Reports (10-Q): ") = false /\
  includes (_formatSECResults (u "Apple stock") appleData noSubmissions) (u " on file") = false.
Proof. repeat split; vm_compute; reflexivity. Qed.

(** C5 (amended): when the delivered submissions carry a form array,
    the Financial Data Analysis section, and so the full report,
    prints the number of 10-K and of 10-Q entries of the whole array,
    entries past the first 20 included; when the array is absent the
    two count lines are left out. *)
Theorem C5_counts_over_all_forms (submissions : CompanySubmissions) :
  (forall recentFilings forms,
     recentOf submissions = Some recentFilings ->
     form recentFilings = Some forms ->
     let annual := occurrences (u "10-K") forms in
     let quarterly := occurrences (u "10-Q") forms in
     _extractFinancialHighlights submissions =
       highlightsHead ++ annualLine annual ++ quarterlyLine quarterly ++ highlightsTail /\
     annual = occurrences (u "10-K") (firstn 20 forms) +
              occurrences (u "10-K") (skipn 20 forms) /\
     quarterly = occurrences (u "10-Q") (firstn 20 forms) +
                 occurrences (u "10-Q") (skipn 20 forms) /\
     (forall companyName cikData,
        occursIn (annualLine annual)
                 (_formatSECResults companyName cikData submissions) /\
        occursIn (quarterlyLine quarterly)
                 (_formatSECResults companyName cikData submissions))) /\
  ((recentOf submissions = None \/
    exists recentFilings,
      recentOf submissions = Some recentFilings /\ form recentFilings = None) ->
   _extractFinancialHighlights submissions = highlightsHead ++ highlightsTail).
Proof.
  split; [| apply _extractFinancialHighlights_plain].
  intros recentFilings forms Hrecent Hform annual quarterly.
  assert (Hshape :
    _extractFinancialHighlights submissions =
    highlightsHead ++ annualLine annual ++ quarterlyLine quarterly ++ highlightsTail).
  { rewrite (_extractFinancialHighlights_counts submissions recentFilings forms Hrecent Hform).
    rewrite !filter_length_occurrences. reflexivity. }
  split; [exact Hshape |].
  split.
  { unfold annual, occurrences. rewrite <- count_occ_app, firstn_skipn. reflexivity. }
  split.
  { unfold quarterly, occurrences. rewrite <- count_occ_app, firstn_skipn. reflexivity. }
  intros companyName cikData. split.
  - apply occursIn_report_tail. unfold afterDescription. rewrite Hshape.
    exists (bullet ++ u " Industry: " ++ orElse (sic submissions) (u "Not specified") ++ nl ++
            bullet ++ u " Fiscal Year End: " ++
            orElse (fiscalYearEnd submissions) (u "Not specified") ++ nl ++ nl ++
            _analyzeRecentFilings submissions ++ highlightsHead),
           (quarterlyLine quarterly ++ highlightsTail).
    rewrite <- !app_assoc. reflexivity.
  - apply occursIn_report_tail. unfold afterDescription. rewrite Hshape.
    exists (bullet ++ u " Industry: " ++ orElse (sic submissions) (u "Not specified") ++ nl ++
            bullet ++ u " Fiscal Year End: " ++
            orElse (fiscalYearEnd submissions) (u "Not specified") ++ nl ++ nl ++
            _analyzeRecentFilings submissions ++ highlightsHead ++ annualLine annual),
           highlightsTail.
    rewrite <- !app_assoc. reflexivity.
Qed.

(** Twelve 10-K and eight 10-Q entries, all past the first 20. *)
Lemma C5_counts_over_all_forms_witness :
  _extractFinancialHighlights lateReports =
    highlightsHead ++ annualLine 12 ++ quarterlyLine 8 ++ highlightsTail /\
  numberToString 12 = u "12" /\ numberToString 8 = u "8" /\
  shownEntries (entriesOf lateReports) = [].
Proof.
  destruct (C5_counts_over_all_forms lateReports) as [Hcounts _].
  destruct (Hcounts
              {| form := Some (repeat (u "4") 20 ++ repeat (u "10-K") 12 ++ repeat (u "10-Q") 8);
                 filingDate := Some (repeat (u "2024-11-01") 40);
                 accessionNumber := Some (repeat (u "0000320193-24-000123") 40) |}
              (repeat (u "4") 20 ++ repeat (u "10-K") 12 ++ repeat (u "10-Q") 8)
              eq_refl eq_refl) as [Hshape _].
  split; [exact Hshape |].
  repeat split; vm_compute; reflexivity.
Defined.

(** C9: a description longer than 300 code units is printed as its
    first 300 code units followed by three dots; a non-empty
    description of at most 300 code units is printed as it is.  In
    both cases the line sits between the identity lines and the
    industry line.  The empty string is falsy, so the code takes it
    for no description and prints no line. *)
Theorem C9_description_truncated
  (companyName : jsstring) (cikData : CompanyData)
  (submissions : CompanySubmissions) (text : jsstring) :
  description submissions = Some text ->
  (300 < length text ->
   _formatSECResults companyName cikData submissions =
     headerAndIdentity companyName cikData ++
     (bullet ++ u " Business Description: " ++ firstn 300 text ++ u "..." ++ nl) ++
     afterDescription submissions /\
   length (firstn 300 text) = 300) /\
  (text <> [] -> length text <= 300 ->
   _formatSECResults companyName cikData submissions =
     headerAndIdentity companyName cikData ++
     (bullet ++ u " Business Description: " ++ text ++ nl) ++
     afterDescription submissions) /\
  (text = [] ->
   _formatSECResults companyName cikData submissions =
     headerAndIdentity companyName cikData ++ afterDescription submissions).
Proof.
  intros Hdesc. rewrite _formatSECResults_shape, Hdesc. unfold descriptionLine.
  split; [| split].
  - intros Hlong. destruct text as [| c d]; [simpl in Hlong; lia |].
    apply Nat.ltb_lt in Hlong. rewrite Hlong. apply Nat.ltb_lt in Hlong.
    split.
    + rewrite <- !app_assoc. reflexivity.
    + apply firstn_length_le. lia.
  - intros Hne Hshort. destruct text as [| c d]; [congruence |].
    apply Nat.ltb_ge in Hshort. rewrite Hshort. reflexivity.
  - intros ->. reflexivity.
Qed.

Lemma C9_description_truncated_witness :
  let long := {| description := Some (repeat 120%N 301); sic := None;
                 fiscalYearEnd := None; filings := None |} in
  300 < length (repeat 120%N 301) /\
  _formatSECResults (u "Apple stock") appleData long =
    headerAndIdentity (u "Apple stock") appleData ++
    (bullet ++ u " Business Description: " ++ repeat 120%N 300 ++ u "..." ++ nl) ++
    afterDescription long.
Proof.
  intros long.
  assert (Hlong : 300 < length (repeat 120%N 301)) by (rewrite repeat_length; lia).
  split; [exact Hlong |].
  destruct (C9_description_truncated (u "Apple stock") appleData long
              (repeat 120%N 301) eq_refl) as [Hcut _].
  destruct (Hcut Hlong) as [Hshape _]. exact Hshape.
Defined.

Lemma recentOf_withAccessionNumbers numbers submissions :
  entriesOf (withAccessionNumbers numbers submissions) = entriesOf submissions /\
  ((recentOf (withAccessionNumbers numbers submissions) = None /\
    recentOf submissions = None) \/
   (exists r r', recentOf (withAccessionNumbers numbers submissions) = Some r /\
                 recentOf submissions = Some r')) /\
  _extractFinancialHighlights (withAccessionNumbers numbers submissions) =
  _extractFinancialHighlights submissions.
Proof.
  unfold withAccessionNumbers, entriesOf, recentOf, _extractFinancialHighlights.
  destruct submissions as [d s y [[[[forms dates accs] |]] |]]; simpl;
    split; try reflexivity; split; try reflexivity; eauto.
Qed.

(** C10, as stated, fails on the code in its last clause: with no
    accession numbers at all every key filing records ['N/A'], and
    the two sections print it nowhere. *)
Lemma C10_accession_not_rendered :
  map KeyFiling.accession
      (recentKeyFilings
         (map u ["10-K"; "4"; "10-Q"; "8-K"; "DEF 14A"; "10-Q"; "8-K"; "10-K"]%string)
         (map u ["2024-11-01"; "2024-10-15"; "2024-08-02"; "2024-08-01";
                 "2024-01-11"; "2024-05-03"]%string)
         []) = repeat (Some (u "N/A")) 5 /\
  includes (_analyzeRecentFilings raggedSubmissions ++
            _extractFinancialHighlights raggedSubmissions) (u "N/A") = false.
Proof. split; vm_compute; reflexivity. Qed.

(** C10 (amended): on every shape of submissions the two sections are
    produced and no array is read out of range.  Each key filing comes
    from an index below 20 that lies inside both the form and the date
    array, its date is the element read there, and its accession
    number is the element read there or ['N/A'] when the index is
    outside that array.  Without a recent object the fixed lines are
    returned; otherwise every line printed is the line of an aligned
    (form, date) entry.  The accession number is only recorded: both
    sections are the same whatever the accession array is. *)
Theorem C10_sections_total_in_range :
  (forall forms filingDates accessionNumbers filing,
     In filing (recentKeyFilings forms filingDates accessionNumbers) ->
     exists i date,
       i < 20 /\ i < length forms /\ i < length filingDates /\
       nth_error forms i = Some (KeyFiling.form filing) /\
       In (KeyFiling.form filing) keyForms /\
       nth_error filingDates i = Some date /\
       KeyFiling.date filing = Some date /\
       KeyFiling.accession filing = Some (nth i accessionNumbers (u "N/A")) /\
       (length accessionNumbers <= i -> KeyFiling.accession filing = Some (u "N/A"))) /\
  (forall submissions,
     recentOf submissions = None ->
     _analyzeRecentFilings submissions =
       u "**Recent SEC Filings:**" ++ nl ++ noRecentLine /\
     _extractFinancialHighlights submissions = highlightsHead ++ highlightsTail) /\
  (forall submissions recentFilings,
     recentOf submissions = Some recentFilings ->
     _analyzeRecentFilings submissions =
       u "**Recent SEC Filings:**" ++ nl ++
       match shownEntries (entriesOf submissions) with
       | [] => noKeyLine
       | _ => concat (map entryLine (shownEntries (entriesOf submissions)))
       end ++ nl) /\
  (forall submissions numbers,
     _analyzeRecentFilings (withAccessionNumbers numbers submissions) =
       _analyzeRecentFilings submissions /\
     _extractFinancialHighlights (withAccessionNumbers numbers submissions) =
       _extractFinancialHighlights submissions).
Proof.
  split.
  { intros forms filingDates accessionNumbers filing Hin.
    destruct (recentKeyFilings_bounds forms filingDates accessionNumbers filing Hin)
      as [i [date [H20 [Hforms [Hdates [Hform [Hkey [Hdate [Hshown Hacc]]]]]]]]].
    exists i, date. repeat split; try assumption.
    intros Hout. rewrite Hacc, nth_overflow by exact Hout. reflexivity. }
  split.
  { intros submissions Hnone. split.
    - rewrite _analyzeRecentFilings_shape, Hnone. reflexivity.
    - apply _extractFinancialHighlights_plain. left. exact Hnone. }
  split.
  { intros submissions recentFilings Hsome.
    rewrite _analyzeRecentFilings_shape, Hsome. reflexivity. }
  intros submissions numbers.
  destruct (recentOf_withAccessionNumbers numbers submissions) as [Hentries [Hnone Hsame]].
  split; [| exact Hsame].
  rewrite !_analyzeRecentFilings_shape, Hentries.
  destruct Hnone as [[-> ->] | [r [r' [-> ->]]]]; reflexivity.
Qed.

Lemma C10_sections_total_in_range_witness :
  _analyzeRecentFilings (withAccessionNumbers (Some [u "0000320193-24-000123"])
                                              raggedSubmissions) =
  _analyzeRecentFilings raggedSubmissions /\
  exists i date,
    i < 20 /\ i < 8 /\ i < 6 /\
    nth_error (map u ["2024-11-01"; "2024-10-15"; "2024-08-02"; "2024-08-01";
                      "2024-01-11"; "2024-05-03"]%string) i = Some date /\
    Some (u "2024-05-03") = Some date.
Proof.
  destruct C10_sections_total_in_range as [Hbounds [_ [_ Hsame]]].
  split; [apply Hsame |].
  destruct (Hbounds
              (map u ["10-K"; "4"; "10-Q"; "8-K"; "DEF 14A"; "10-Q"; "8-K"; "10-K"]%string)
              (map u ["2024-11-01"; "2024-10-15"; "2024-08-02"; "2024-08-01";
                      "2024-01-11"; "2024-05-03"]%string)
              []
              {| KeyFiling.form := u "10-Q";
                 KeyFiling.date := Some (u "2024-05-03");
                 KeyFiling.accession := Some (u "N/A") |})
    as [i [date [H20 [Hforms [Hdates [_ [_ [Hdate [Hshown _]]]]]]]]].
  - vm_compute. auto 10.
  - exists i, date. repeat split; assumption.
Defined.

(** * Further properties of the code *)

(** ** The handler as a function of its tokens *)

Lemma tokenValues_pure tokens w :
  tokenValues tokens w =
  (match valuesOf tokens with
   | Some values => Returned values
   | None => Threw (JsError (u "Cannot read properties of null (reading 'value')"))
   end, w).
Proof.
  induction tokens as [| [| value] tokens IH]; simpl; try reflexivity.
  unfold bind. rewrite IH. destruct (valuesOf tokens); reflexivity.
Qed.

Lemma valuesOf_objects values : valuesOf (map TokenObject values) = Some values.
Proof.
  induction values as [| v values IH]; simpl; [reflexivity |].
  rewrite IH. reflexivity.
Qed.

Lemma valuesOf_nullish tokens : In Nullish tokens <-> valuesOf tokens = None.
Proof.
  induction tokens as [| [| value] tokens IH]; simpl.
  - split; [intros [] | discriminate].
  - split; [reflexivity | auto].
  - destruct (valuesOf tokens) as [values |].
    + split; [| discriminate]. intros [Hv | Hin]; [discriminate |].
      apply IH in Hin. discriminate.
    + split; [reflexivity |]. intros _. right. apply IH. reflexivity.
Qed.

(** The handler never throws: it returns the utterance carrying
    [handlerMessage] and leaves [handlerWorld]. *)
Lemma _handleFinancialQuery_total `{CaseMapping} speakerUri senderUri env tokens w :
  _handleFinancialQuery speakerUri senderUri env tokens w =
  (Returned (createTextUtterance speakerUri senderUri (handlerMessage env tokens)),
   handlerWorld env tokens w).
Proof.
  unfold _handleFinancialQuery, handlerMessage, handlerWorld.
  destruct tokens as [[| t rest] |]; try reflexivity.
  unfold tryCatch, bind. rewrite tokenValues_pure.
  destruct (valuesOf (t :: rest)) as [values |]; [| reflexivity].
  destruct (_isFinancialQuery (join values)); simpl; [| reflexivity].
  rewrite _searchSEC_run. reflexivity.
Qed.

(** X1: the handler sees only the concatenation of the token values:
    two non-empty, readable token lists with the same joined text get
    the same answer and leave the same world, however the text is cut
    into tokens. *)
Theorem handler_depends_on_joined_text `{CaseMapping}
  (speakerUri senderUri : jsstring) (env : Env)
  (tokens1 tokens2 : list Token) (values1 values2 : list (option jsstring)) (w : World) :
  tokens1 <> [] -> tokens2 <> [] ->
  valuesOf tokens1 = Some values1 -> valuesOf tokens2 = Some values2 ->
  join values1 = join values2 ->
  _handleFinancialQuery speakerUri senderUri env (Some tokens1) w =
  _handleFinancialQuery speakerUri senderUri env (Some tokens2) w.
Proof.
  intros Hne1 Hne2 Hv1 Hv2 Hjoin. rewrite !_handleFinancialQuery_total.
  unfold handlerMessage, handlerWorld.
  destruct tokens1 as [| t1 rest1]; [congruence |].
  destruct tokens2 as [| t2 rest2]; [congruence |].
  rewrite Hv1, Hv2, Hjoin. reflexivity.
Qed.

Lemma handler_depends_on_joined_text_witness :
  _handleFinancialQuery (u "agent") (u "user") (answering (FetchThrows JsNonError))
    (Some [TokenObject (Some (u "Tesla")); TokenObject (Some (u " stock"))]) afresh =
  _handleFinancialQuery (u "agent") (u "user") (answering (FetchThrows JsNonError))
    (Some [TokenObject (Some (u "Tes")); TokenObject None;
           TokenObject (Some (u "la st")); TokenObject (Some (u "ock"))]) afresh.
Proof.
  apply (@handler_depends_on_joined_text asciiCase (u "agent") (u "user")
           (answering (FetchThrows JsNonError))
           [TokenObject (Some (u "Tesla")); TokenObject (Some (u " stock"))]
           [TokenObject (Some (u "Tes")); TokenObject None;
            TokenObject (Some (u "la st")); TokenObject (Some (u "ock"))]
           [Some (u "Tesla"); Some (u " stock")]
           [Some (u "Tes"); None; Some (u "la st"); Some (u "ock")] afresh).
  - discriminate.
  - discriminate.
  - reflexivity.
  - reflexivity.
  - reflexivity.
Defined.

(** X2: empty input.  Without tokens (missing or an empty array) the
    handler asks for a company name; with tokens whose joined text is
    empty or blank it answers with the scope guidance instead.  In
    both cases the world is left as it was: no wait, no lookup, no
    fetch. *)
Theorem handler_on_empty_input `{CaseMapping}
  (speakerUri senderUri : jsstring) (env : Env) (w : World) :
  _handleFinancialQuery speakerUri senderUri env None w =
    (Returned {| speaker := speakerUri; text := needNameMessage; to := senderUri |}, w) /\
  _handleFinancialQuery speakerUri senderUri env (Some []) w =
    (Returned {| speaker := speakerUri; text := needNameMessage; to := senderUri |}, w) /\
  (forall tokens values,
     tokens <> [] -> valuesOf tokens = Some values -> blank (join values) ->
     _handleFinancialQuery speakerUri senderUri env (Some tokens) w =
       (Returned {| speaker := speakerUri; text := scopeMessage; to := senderUri |}, w)).
Proof.
  split; [reflexivity |]. split; [reflexivity |].
  intros tokens values Hne Hvalues Hblank. rewrite _handleFinancialQuery_total.
  unfold handlerMessage, handlerWorld.
  destruct tokens as [| t rest]; [congruence |]. rewrite Hvalues.
  assert (Hgate : _isFinancialQuery (join values) = false).
  { unfold _isFinancialQuery. rewrite toLowerCase_blank by exact Hblank.
    apply existsb_false_forall. intros indicator Hin.
    apply includes_blank; [exact Hblank |].
    pose proof indicators_visible as Hvis.
    rewrite forallb_forall in Hvis. apply Hvis. exact Hin. }
  rewrite Hgate. reflexivity.
Qed.

Lemma handler_on_empty_input_witness :
  _handleFinancialQuery (u "agent") (u "user") (answering (FetchThrows JsNonError))
    (Some [TokenObject (Some (u "  ")); TokenObject None; TokenObject (Some [])]) afresh =
  (Returned {| speaker := u "agent"; text := scopeMessage; to := u "user" |}, afresh).
Proof.
  destruct (@handler_on_empty_input asciiCase (u "agent") (u "user")
              (answering (FetchThrows JsNonError)) afresh) as [_ [_ Hblank]].
  apply (Hblank [TokenObject (Some (u "  ")); TokenObject None; TokenObject (Some [])]
                [Some (u "  "); None; Some []]).
  - discriminate.
  - reflexivity.
  - reflexivity.
Defined.

(** X3: a token that is [null] or [undefined] anywhere in the list
    makes the handler answer with the apology, and nothing has
    happened by then: the world is unchanged, even when the readable
    part of the text names a known company. *)
Theorem handler_on_unreadable_token `{CaseMapping}
  (speakerUri senderUri : jsstring) (env : Env) (tokens : list Token) (w : World) :
  In Nullish tokens ->
  _handleFinancialQuery speakerUri senderUri env (Some tokens) w =
  (Returned {| speaker := speakerUri; text := errorMessage; to := senderUri |}, w).
Proof.
  intros Hin. rewrite _handleFinancialQuery_total.
  unfold handlerMessage, handlerWorld.
  destruct tokens as [| t rest]; [destruct Hin |].
  apply valuesOf_nullish in Hin. rewrite Hin. reflexivity.
Qed.

Lemma handler_on_unreadable_token_witness :
  _handleFinancialQuery (u "agent") (u "user")
    (answering (Response 200 (JsonValue (Some lateReports))))
    (Some [TokenObject (Some (u "Apple stock")); Nullish]) afresh =
  (Returned {| speaker := u "agent"; text := errorMessage; to := u "user" |}, afresh).
Proof.
  apply (@handler_on_unreadable_token asciiCase (u "agent") (u "user")
           (answering (Response 200 (JsonValue (Some lateReports))))
           [TokenObject (Some (u "Apple stock")); Nullish] afresh).
  right. left. reflexivity.
Defined.

(** ** More on the directory lookup and the gate *)

Lemma trimStart_app_blank a s : blank a -> trimStart (a ++ s) = trimStart s.
Proof.
  unfold blank. induction a as [| c a IH]; simpl; intros Hb; [reflexivity |].
  apply andb_true_iff in Hb. destruct Hb as [Hc Ha]. rewrite Hc. apply IH. exact Ha.
Qed.

Lemma trimStart_app s b :
  trimStart (s ++ b) =
  if forallb isWhiteSpace s then trimStart b else trimStart s ++ b.
Proof.
  induction s as [| c s IH]; simpl; [reflexivity |].
  destruct (isWhiteSpace c); simpl; [exact IH | reflexivity].
Qed.

Lemma blank_rev s : blank s -> blank (rev s).
Proof.
  unfold blank. rewrite !forallb_forall. intros Hb c Hc.
  apply Hb. apply in_rev. exact Hc.
Qed.

Lemma trimEnd_app_blank s b : blank b -> trimEnd (s ++ b) = trimEnd s.
Proof.
  intros Hb. unfold trimEnd. rewrite rev_app_distr.
  rewrite trimStart_app_blank by (apply blank_rev; exact Hb). reflexivity.
Qed.

Lemma trimEnd_blank s : blank s -> trimEnd s = [].
Proof.
  intros Hb. unfold trimEnd.
  rewrite (trimStart_blank (rev s) (blank_rev s Hb)). reflexivity.
Qed.

(** Blank text around a string does not change what [trim] returns. *)
Lemma trim_padding a s b : blank a -> blank b -> trim (a ++ s ++ b) = trim s.
Proof.
  intros Ha Hb. unfold trim. rewrite trimStart_app_blank by exact Ha.
  rewrite trimStart_app. destruct (forallb isWhiteSpace s) eqn:Hs.
  - rewrite (trimStart_blank b Hb), (trimStart_blank s Hs). reflexivity.
  - apply trimEnd_app_blank. exact Hb.
Qed.

Lemma ascii7_app a b : ascii7 (a ++ b) <-> ascii7 a /\ ascii7 b.
Proof. unfold ascii7. apply Forall_app. Qed.

(** X4: the table is consistent with its own matching rule: a name
    that normalizes to one of the ten keys resolves to the entry
    written under that key; no earlier key captures it. *)
Theorem lookup_of_a_key `{CaseMapping}
  (companyName key : jsstring) (data : CompanyData) :
  In (key, data) knownCompanies ->
  trim (toLowerCase companyName) = key ->
  _fallbackCompanyLookup companyName = Some data.
Proof.
  intros Hin Hnorm. unfold _fallbackCompanyLookup. rewrite Hnorm. clear Hnorm.
  simpl in Hin.
  repeat (destruct Hin as [Heq | Hin];
          [injection Heq as <- <-; vm_compute; reflexivity |]).
  destruct Hin.
Qed.

Lemma lookup_of_a_key_witness :
  _fallbackCompanyLookup (u "  Facebook ") =
  Some (mkCompany "0001326801" "META" "Meta Platforms, Inc.").
Proof.
  apply (@lookup_of_a_key asciiCase (u "  Facebook ") (u "facebook")
           (mkCompany "0001326801" "META" "Meta Platforms, Inc.")).
  - do 7 right. left. reflexivity.
  - vm_compute. reflexivity.
Defined.

(** X5: on names made of ASCII code units the lookup ignores letter
    case and surrounding white space: two names with the same
    lower-case form resolve alike, and blank ASCII text before and
    after a name does not change the result. *)
Theorem lookup_ignores_case_and_padding `{CaseMapping} :
  (forall name1 name2,
     ascii7 name1 -> ascii7 name2 ->
     map lowerUnit name1 = map lowerUnit name2 ->
     _fallbackCompanyLookup name1 = _fallbackCompanyLookup name2) /\
  (forall before name after,
     ascii7 before -> ascii7 name -> ascii7 after ->
     blank before -> blank after ->
     _fallbackCompanyLookup (before ++ name ++ after) = _fallbackCompanyLookup name).
Proof.
  split.
  - intros name1 name2 H1 H2 Hsame. unfold _fallbackCompanyLookup.
    rewrite (toLowerCase_ascii name1 H1), (toLowerCase_ascii name2 H2), Hsame.
    reflexivity.
  - intros before name after Hb Hn Ha Hbb Hba. unfold _fallbackCompanyLookup.
    rewrite (toLowerCase_ascii name Hn).
    rewrite toLowerCase_ascii.
    2: { apply ascii7_app. split; [exact Hb |]. apply ascii7_app. split; assumption. }
    rewrite !map_app, (lowerUnit_blank before Hbb), (lowerUnit_blank after Hba).
    rewrite trim_padding by assumption. reflexivity.
Qed.

Lemma lookup_ignores_case_and_padding_witness :
  _fallbackCompanyLookup (u "  nViDiA" ++ [9%N; 10%N]) = _fallbackCompanyLookup (u "NVIDIA") /\
  _fallbackCompanyLookup (u "  nViDiA" ++ [9%N; 10%N]) =
  Some (mkCompany "0001045810" "NVDA" "NVIDIA Corporation").
Proof.
  destruct (@lookup_ignores_case_and_padding asciiCase) as [Hcase Hpad].
  assert (Hleft : _fallbackCompanyLookup (u "  nViDiA" ++ [9%N; 10%N]) =
                  _fallbackCompanyLookup (u "nViDiA")).
  { apply (Hpad (u "  ") (u "nViDiA") [9%N; 10%N]).
    - unfold ascii7. repeat constructor.
    - unfold ascii7. repeat constructor.
    - unfold ascii7. repeat constructor.
    - reflexivity.
    - reflexivity. }
  assert (Hright : _fallbackCompanyLookup (u "nViDiA") = _fallbackCompanyLookup (u "NVIDIA")).
  { apply Hcase.
    - unfold ascii7. repeat constructor.
    - unfold ascii7. repeat constructor.
    - reflexivity. }
  split.
  - rewrite Hleft. exact Hright.
  - rewrite Hleft, Hright. vm_compute. reflexivity.
Defined.

Lemma keys_out_of_scope :
  forallb (fun entry =>
             negb (existsb (fun indicator => includes (fst entry) indicator)
                           financialIndicators))
          knownCompanies = true.
Proof. vm_compute. reflexivity. Qed.

(** X6: a query that is nothing but a table key, in any casing, does
    not pass the gate: the handler answers with the scope guidance and
    the directory is never consulted, so a bare company name never
    resolves through the handler. *)
Theorem bare_key_is_out_of_scope `{CaseMapping}
  (speakerUri senderUri : jsstring) (env : Env)
  (values : list (option jsstring)) (key : jsstring) (data : CompanyData) (w : World) :
  values <> [] ->
  In (key, data) knownCompanies ->
  toLowerCase (join values) = key ->
  _isFinancialQuery (join values) = false /\
  _handleFinancialQuery speakerUri senderUri env (Some (map TokenObject values)) w =
  (Returned {| speaker := speakerUri; text := scopeMessage; to := senderUri |}, w).
Proof.
  intros Hne Hin Hlower.
  assert (Hgate : _isFinancialQuery (join values) = false).
  { unfold _isFinancialQuery. rewrite Hlower.
    pose proof keys_out_of_scope as Hkeys. rewrite forallb_forall in Hkeys.
    specialize (Hkeys (key, data) Hin). simpl in Hkeys.
    apply negb_true_iff in Hkeys. exact Hkeys. }
  split; [exact Hgate |].
  rewrite _handleFinancialQuery_run by exact Hne. rewrite Hgate. reflexivity.
Qed.

Lemma bare_key_is_out_of_scope_witness :
  _fallbackCompanyLookup (u "Apple") = Some appleData /\
  _handleFinancialQuery (u "agent") (u "user")
    (answering (Response 200 (JsonValue (Some lateReports))))
    (Some [TokenObject (Some (u "Apple"))]) afresh =
  (Returned {| speaker := u "agent"; text := scopeMessage; to := u "user" |}, afresh).
Proof.
  split; [vm_compute; reflexivity |].
  apply (@bare_key_is_out_of_scope asciiCase (u "agent") (u "user")
           (answering (Response 200 (JsonValue (Some lateReports))))
           [Some (u "Apple")] (u "apple") appleData afresh).
  - discriminate.
  - left. reflexivity.
  - reflexivity.
Defined.

Lemma gate_true `{CaseMapping} query :
  _isFinancialQuery query = true <->
  exists keyword,
    In keyword financialIndicators /\ occursIn keyword (toLowerCase query).
Proof.
  unfold _isFinancialQuery. rewrite existsb_exists. split.
  - intros [keyword [Hin Hinc]]. exists keyword. split; [exact Hin |].
    apply includes_occursIn. exact Hinc.
  - intros [keyword [Hin Hocc]]. exists keyword. split; [exact Hin |].
    apply includes_occursIn. exact Hocc.
Qed.

(** X7: on ASCII text the gate looks only at the lower-case form, and
    it is monotone: text that passes keeps passing when ASCII text is
    put before and after it. *)
Theorem gate_on_ascii_text `{CaseMapping} :
  (forall query1 query2,
     ascii7 query1 -> ascii7 query2 ->
     map lowerUnit query1 = map lowerUnit query2 ->
     _isFinancialQuery query1 = _isFinancialQuery query2) /\
  (forall before query after,
     ascii7 before -> ascii7 query -> ascii7 after ->
     _isFinancialQuery query = true ->
     _isFinancialQuery (before ++ query ++ after) = true).
Proof.
  split.
  - intros query1 query2 H1 H2 Hsame. unfold _isFinancialQuery.
    rewrite (toLowerCase_ascii query1 H1), (toLowerCase_ascii query2 H2), Hsame.
    reflexivity.
  - intros before query after Hb Hq Ha Hpass.
    apply gate_true in Hpass. destruct Hpass as [keyword [Hin Hocc]].
    apply gate_true. exists keyword. split; [exact Hin |].
    rewrite (toLowerCase_ascii query Hq) in Hocc.
    rewrite toLowerCase_ascii.
    2: { apply ascii7_app. split; [exact Hb |]. apply ascii7_app. split; assumption. }
    rewrite !map_app. apply occursIn_app_r, occursIn_app_l. exact Hocc.
Qed.

Lemma gate_on_ascii_text_witness :
  _isFinancialQuery (u "What is the REVENUE of Tesla?") = true.
Proof.
  destruct (@gate_on_ascii_text asciiCase) as [Hcase Hgrow].
  rewrite (Hcase (u "What is the REVENUE of Tesla?") (u "what is the revenue of tesla?")).
  - apply (Hgrow (u "what is the ") (u "revenue") (u " of tesla?")).
    + unfold ascii7. repeat constructor.
    + unfold ascii7. repeat constructor.
    + unfold ascii7. repeat constructor.
    + vm_compute. reflexivity.
  - unfold ascii7. repeat constructor.
  - unfold ascii7. repeat constructor.
  - reflexivity.
Defined.

Lemma occursIn_company_in_public_company : occursIn (u "company") (u "public company").
Proof. exists (u "public "), []. reflexivity. Qed.

(** X8: the keyword ['public company'] never decides the gate: every
    text it lets through already contains ['company'], so the gate
    with the 18 keywords accepts exactly the texts the other 17
    accept. *)
Theorem public_company_keyword_is_redundant `{CaseMapping} (query : jsstring) :
  _isFinancialQuery query =
  existsb (fun indicator => includes (toLowerCase query) indicator)
          indicatorsWithoutPublicCompany.
Proof.
  apply eq_true_iff_eq. rewrite gate_true, existsb_exists. split.
  - intros [keyword [Hin Hocc]].
    destruct (jsstring_eq_dec keyword (u "public company")) as [-> | Hother].
    + exists (u "company"). split; [left; reflexivity |].
      apply includes_occursIn.
      exact (occursIn_trans _ _ _ occursIn_company_in_public_company Hocc).
    + exists keyword. split; [| apply includes_occursIn; exact Hocc].
      unfold financialIndicators in Hin. unfold indicatorsWithoutPublicCompany.
      cbn [map In] in *.
      repeat (destruct Hin as [Heq | Hin]; [try (exfalso; apply Hother; symmetry; exact Heq); auto 20 |]).
      destruct Hin.
  - intros [keyword [Hin Hinc]]. exists keyword.
    split; [| apply includes_occursIn; exact Hinc].
    unfold financialIndicators. unfold indicatorsWithoutPublicCompany in Hin.
    cbn [map In] in *.
    repeat (destruct Hin as [Heq | Hin]; [auto 20 |]).
    destruct Hin.
Qed.

Lemma public_company_keyword_is_redundant_witness :
  _isFinancialQuery (u "Is Netflix a Public Company?") =
  existsb (fun indicator => includes (toLowerCase (u "Is Netflix a Public Company?")) indicator)
          indicatorsWithoutPublicCompany.
Proof.
  exact (@public_company_keyword_is_redundant asciiCase (u "Is Netflix a Public Company?")).
Defined.

(** ** Requests *)






Lemma afterRateLimit_gap env w :
  (0 <= timerLate env)%Z ->
  (lastRequestTime w + rateLimitDelay <= lastRequestTime (afterRateLimit env w))%Z.
Proof.
  intros Hlate. unfold afterRateLimit, rateLimitDelay.
  destruct (0 <? 3000 - (clock w - lastRequestTime w))%Z eqn:Hwait;
    cbn [lastRequestTime].
  - lia.
  - apply Z.ltb_ge in Hwait. lia.
Qed.

(** X11: the rate limiter runs before the directory is consulted, so a
    name that does not resolve pays for the wait all the same: the
    call makes no request, yet it ends no earlier than 3000 ms after
    the previous recorded time and moves [lastRequestTime] there. *)
Theorem unresolved_name_is_rate_limited `{CaseMapping}
  (env : Env) (companyName : jsstring) (w : World) :
  _fallbackCompanyLookup companyName = None ->
  (0 <= timerLate env)%Z ->
  let w' := snd (_searchSEC env companyName w) in
  fetchTimes (trace w') = fetchTimes (trace w) /\
  lastRequestTime w' = clock w' /\
  (lastRequestTime w + rateLimitDelay <= lastRequestTime w')%Z /\
  ((clock w - lastRequestTime w < rateLimitDelay)%Z ->
   In (Sleep (rateLimitDelay - (clock w - lastRequestTime w))) (trace w')).
Proof.
  intros Hnone Hlate w'. unfold w'. rewrite _searchSEC_run. cbn [snd].
  unfold afterSearch. rewrite Hnone. unfold afterLookup. cbn [trace clock lastRequestTime].
  split.
  { rewrite fetchTimes_app, fetchTimes_afterRateLimit. simpl. apply app_nil_r. }
  split; [symmetry; apply afterRateLimit_stamp |].
  split; [apply afterRateLimit_gap; exact Hlate |].
  intros Hearly. apply in_or_app. left. unfold afterRateLimit.
  assert (Hwait : (0 <? rateLimitDelay - (clock w - lastRequestTime w))%Z = true)
    by (apply Z.ltb_lt; lia).
  rewrite Hwait. cbn [trace]. apply in_or_app. right. left. reflexivity.
Qed.

Lemma unresolved_name_is_rate_limited_witness :
  let w := {| clock := 1000; lastRequestTime := 400; trace := [] |} in
  trace (snd (_searchSEC (answering (FetchThrows JsNonError))
                         (u "NotARealCompany123") w)) =
    [Sleep 2400; CallLookup (u "NotARealCompany123")] /\
  (400 + rateLimitDelay <=
   lastRequestTime (snd (_searchSEC (answering (FetchThrows JsNonError))
                                    (u "NotARealCompany123") w)))%Z.
Proof.
  intros w. split; [vm_compute; reflexivity |].
  assert (Hnone : _fallbackCompanyLookup (u "NotARealCompany123") = None)
    by (vm_compute; reflexivity).
  assert (Hlate : (0 <= timerLate (answering (FetchThrows JsNonError)))%Z)
    by (vm_compute; discriminate).
  destruct (@unresolved_name_is_rate_limited asciiCase (answering (FetchThrows JsNonError))
              (u "NotARealCompany123") w Hnone Hlate) as [_ [_ [Hgap _]]].
  exact Hgap.
Defined.

(** ** Pacing over any number of queries *)

Lemma spaced_snoc times time :
  spaced times ->
  Forall (fun earlier => (earlier + rateLimitDelay <= time)%Z) times ->
  spaced (times ++ [time]).
Proof.
  induction times as [| a times IH]; intros Hs Hall; [exact I |].
  destruct times as [| b times].
  - simpl. inversion Hall. auto.
  - destruct Hs as [Hab Hrest]. inversion Hall as [| ? ? _ Htail]. subst.
    change (spaced (a :: (b :: times ++ [time]))).
    cbn [spaced]. split; [exact Hab |]. apply (IH Hrest Htail).
Qed.

Lemma paced_afterSearch `{CaseMapping} env companyName w :
  (0 <= timerLate env)%Z -> paced w -> paced (afterSearch env companyName w).
Proof.
  intros Hlate [Hspaced Hbefore]. unfold paced.
  pose proof (afterRateLimit_gap env w Hlate) as Hgap. unfold rateLimitDelay in Hgap.
  destruct (_fallbackCompanyLookup companyName) as [cikData |] eqn:Hlookup.
  - destruct (afterSearch_resolved env companyName cikData w Hlookup)
      as [Htimes [Hlast _]].
    rewrite Htimes, Hlast. split.
    + apply spaced_snoc; [exact Hspaced |].
      eapply Forall_impl; [| exact Hbefore]. unfold rateLimitDelay.
      intros t Ht. simpl in Ht. lia.
    + apply Forall_app. split.
      * eapply Forall_impl; [| exact Hbefore]. intros t Ht. simpl in Ht. lia.
      * constructor; [lia | constructor].
  - unfold afterSearch. rewrite Hlookup. unfold afterLookup.
    cbn [trace lastRequestTime].
    rewrite fetchTimes_app, fetchTimes_afterRateLimit. cbn [fetchTimes].
    rewrite app_nil_r. split; [exact Hspaced |].
    eapply Forall_impl; [| exact Hbefore]. intros t Ht. simpl in Ht. lia.
Qed.

Lemma paced_handlerWorld `{CaseMapping} env tokens w :
  (0 <= timerLate env)%Z -> paced w -> paced (handlerWorld env tokens w).
Proof.
  intros Hlate Hpaced. unfold handlerWorld.
  destruct tokens as [[| t rest] |]; try exact Hpaced.
  destruct (valuesOf (t :: rest)) as [values |]; [| exact Hpaced].
  destruct (_isFinancialQuery (join values)); [| exact Hpaced].
  apply paced_afterSearch; assumption.
Qed.

(** X12: pacing is an invariant of the handler.  If the requests made
    so far are at least 3000 ms apart and none is later than
    [lastRequestTime], the same holds after the handler has run on any
    tokens, as long as the timer does not fire early; a world in which
    nothing was requested yet is paced.  So over any number of queries
    handled one after the other, consecutive requests start at least
    3000 ms apart. *)
Theorem handler_keeps_pace `{CaseMapping}
  (speakerUri senderUri : jsstring) (env : Env) (tokens : option (list Token)) (w : World) :
  (0 <= timerLate env)%Z ->
  paced w ->
  paced (snd (_handleFinancialQuery speakerUri senderUri env tokens w)) /\
  (forall now, paced (initialWorld now)).
Proof.
  intros Hlate Hpaced. split.
  - rewrite _handleFinancialQuery_total. cbn [snd].
    apply paced_handlerWorld; assumption.
  - intros now. split; simpl; constructor.
Qed.

Lemma handler_keeps_pace_witness :
  paced (snd (_handleFinancialQuery (u "agent") (u "user")
                (answering (Response 200 (JsonValue (Some lateReports))))
                (Some [TokenObject (Some (u "Apple stock"))]) afresh)).
Proof.
  apply (@handler_keeps_pace asciiCase (u "agent") (u "user")
           (answering (Response 200 (JsonValue (Some lateReports))))
           (Some [TokenObject (Some (u "Apple stock"))]) afresh).
  - vm_compute. discriminate.
  - split; simpl; constructor.
Defined.

Lemma clock_afterRateLimit env w :
  (0 <= timerLate env)%Z -> (clock w <= clock (afterRateLimit env w))%Z.
Proof.
  intros Hlate. unfold afterRateLimit, rateLimitDelay.
  destruct (0 <? 3000 - (clock w - lastRequestTime w))%Z eqn:Hwait; cbn [clock].
  - apply Z.ltb_lt in Hwait. lia.
  - lia.
Qed.

Lemma trace_afterSearch `{CaseMapping} env companyName w :
  exists added, trace (afterSearch env companyName w) = trace w ++ added.
Proof.
  assert (Hlimit : exists added, trace (afterRateLimit env w) = trace w ++ added).
  { unfold afterRateLimit.
    destruct (0 <? rateLimitDelay - (clock w - lastRequestTime w))%Z.
    - eexists. reflexivity.
    - exists []. symmetry. apply app_nil_r. }
  destruct Hlimit as [added Hadded]. unfold afterSearch, afterFetch, afterLookup.
  destruct (_fallbackCompanyLookup companyName); cbn [trace]; rewrite Hadded;
    rewrite <- !app_assoc; eexists; reflexivity.
Qed.

(** X13: time and history only move forward.  When the timer is not
    early and the request takes no negative time, a run of the handler
    never sets the clock or [lastRequestTime] back, keeps
    [lastRequestTime] at or before the clock if it was, and only
    appends to the trace. *)
Theorem handler_moves_forward `{CaseMapping}
  (speakerUri senderUri : jsstring) (env : Env) (tokens : option (list Token)) (w : World) :
  (0 <= timerLate env)%Z -> (0 <= fetchLatency env)%Z ->
  let w' := snd (_handleFinancialQuery speakerUri senderUri env tokens w) in
  (clock w <= clock w')%Z /\
  (lastRequestTime w <= lastRequestTime w')%Z /\
  ((lastRequestTime w <= clock w)%Z -> (lastRequestTime w' <= clock w')%Z) /\
  exists added, trace w' = trace w ++ added.
Proof.
  intros Hlate Hlatency w'. unfold w'. rewrite _handleFinancialQuery_total. cbn [snd].
  assert (Hstay : (clock w <= clock w)%Z /\ (lastRequestTime w <= lastRequestTime w)%Z /\
                  ((lastRequestTime w <= clock w)%Z -> (lastRequestTime w <= clock w)%Z) /\
                  exists added, trace w = trace w ++ added).
  { repeat split; try lia. exists []. symmetry. apply app_nil_r. }
  unfold handlerWorld.
  destruct tokens as [[| t rest] |]; try exact Hstay.
  destruct (valuesOf (t :: rest)) as [values |]; [| exact Hstay].
  destruct (_isFinancialQuery (join values)); [| exact Hstay].
  clear Hstay.
  pose proof (clock_afterRateLimit env w Hlate) as Hclock.
  pose proof (afterRateLimit_gap env w Hlate) as Hgap. unfold rateLimitDelay in Hgap.
  pose proof (afterRateLimit_stamp env w) as Hstamp.
  split; [| split; [| split]].
  - unfold afterSearch, afterFetch, afterLookup.
    destruct (_fallbackCompanyLookup (join values)); cbn [clock]; lia.
  - unfold afterSearch, afterFetch, afterLookup.
    destruct (_fallbackCompanyLookup (join values)); cbn [lastRequestTime]; lia.
  - intros _. unfold afterSearch, afterFetch, afterLookup.
    destruct (_fallbackCompanyLookup (join values)); cbn [clock lastRequestTime]; lia.
  - apply trace_afterSearch.
Qed.

Lemma handler_moves_forward_witness :
  let w' := snd (_handleFinancialQuery (u "agent") (u "user")
                   (answering (Response 200 (JsonValue (Some lateReports))))
                   (Some [TokenObject (Some (u "Apple stock"))]) afresh) in
  (clock afresh <= clock w')%Z /\ (lastRequestTime afresh <= lastRequestTime w')%Z.
Proof.
  intros w'.
  assert (Hlate : (0 <= timerLate (answering (Response 200 (JsonValue (Some lateReports)))))%Z)
    by (vm_compute; discriminate).
  assert (Hlatency :
    (0 <= fetchLatency (answering (Response 200 (JsonValue (Some lateReports)))))%Z)
    by (vm_compute; discriminate).
  destruct (@handler_moves_forward asciiCase (u "agent") (u "user")
              (answering (Response 200 (JsonValue (Some lateReports))))
              (Some [TokenObject (Some (u "Apple stock"))]) afresh Hlate Hlatency)
    as [Hclock [Hlast _]].
  split; [exact Hclock | exact Hlast].
Defined.

(** ** Envelopes *)

Section EnvelopeRuns.

Context `{CaseMapping}.
Variable Manifest : Type.
Variable manifest : Manifest.
Variable isUtteranceEvent : InEvent -> bool.
Variables speakerUri serviceUrl : jsstring.
Variable env : nat -> Env.

Lemma processEvents_run senderUri pending :
  forall i responseEvents w,
    processEvents manifest isUtteranceEvent speakerUri serviceUrl env
      senderUri i pending responseEvents w =
    (Returned (responseEvents ++
               responsesFrom manifest isUtteranceEvent speakerUri serviceUrl env
                 senderUri i pending),
     worldFrom isUtteranceEvent speakerUri serviceUrl env i pending w).
Proof.
  induction pending as [| event rest IH]; intros i responseEvents w.
  - simpl. unfold ret. rewrite app_nil_r. reflexivity.
  - cbn [processEvents responsesFrom worldFrom]. unfold responseTo, queried, answered.
    destruct (addressedToMe speakerUri serviceUrl event);
      destruct (isUtteranceEvent event); cbn [andb orb].
    + unfold bind. rewrite _handleFinancialQuery_total, IH, <- app_assoc. reflexivity.
    + destruct (str_eqb (eventType event) (u "getManifests")).
      * rewrite IH, <- app_assoc. reflexivity.
      * rewrite IH. reflexivity.
    + rewrite IH. reflexivity.
    + rewrite IH. reflexivity.
Qed.

Lemma responsesFrom_shape senderUri pending :
  forall i,
    let outs := responsesFrom manifest isUtteranceEvent speakerUri serviceUrl env
                  senderUri i pending in
    map isTextUtterance outs =
      map isUtteranceEvent (filter (answered isUtteranceEvent speakerUri serviceUrl) pending) /\
    Forall (fun event => recipientOf event = senderUri) outs.
Proof.
  induction pending as [| event rest IH]; intros i; [split; constructor |].
  destruct (IH (S i)) as [Hkinds Hto].
  cbn [responsesFrom filter]. unfold responseTo, queried, answered.
  destruct (addressedToMe speakerUri serviceUrl event);
    destruct (isUtteranceEvent event) eqn:Hutt; cbn [andb orb app].
  - split; [cbn [map isTextUtterance]; rewrite Hutt, Hkinds; reflexivity |].
    constructor; [reflexivity | exact Hto].
  - destruct (str_eqb (eventType event) (u "getManifests")).
    + split; [cbn [map isTextUtterance app]; rewrite Hutt, Hkinds; reflexivity |].
      constructor; [reflexivity | exact Hto].
    + split; [exact Hkinds | exact Hto].
  - split; [exact Hkinds | exact Hto].
  - split; [exact Hkinds | exact Hto].
Qed.

Lemma worldFrom_idle pending :
  forall i w,
    (forall event, In event pending ->
                   queried isUtteranceEvent speakerUri serviceUrl event = false) ->
    worldFrom isUtteranceEvent speakerUri serviceUrl env i pending w = w.
Proof.
  induction pending as [| event rest IH]; intros i w Hidle; [reflexivity |].
  cbn [worldFrom]. rewrite (Hidle event (or_introl eq_refl)).
  apply IH. intros e He. apply Hidle. right. exact He.
Qed.

Lemma worldFrom_paced pending :
  forall i w,
    (forall k, (0 <= timerLate (env k))%Z) ->
    paced w ->
    paced (worldFrom isUtteranceEvent speakerUri serviceUrl env i pending w).
Proof.
  induction pending as [| event rest IH]; intros i w Hlate Hpaced; [exact Hpaced |].
  cbn [worldFrom]. apply IH; [exact Hlate |].
  destruct (queried isUtteranceEvent speakerUri serviceUrl event); [| exact Hpaced].
  apply paced_handlerWorld; [apply Hlate | exact Hpaced].
Qed.

End EnvelopeRuns.

(** X14: [processEnvelope] never throws.  The envelope it returns
    carries the schema version and conversation id of the incoming
    one and the agent as sender.  It holds one response for each
    incoming event that is addressed to the agent and is an utterance
    or a [getManifests] request, in the order of those events: a text
    utterance for an utterance, a manifest publication for a
    [getManifests]; every response is addressed to the sender of the
    incoming envelope.  Other events get no response. *)
Theorem envelope_responses `{CaseMapping}
  (Manifest : Type) (manifest : Manifest) (isUtteranceEvent : InEvent -> bool)
  (speakerUri serviceUrl : jsstring) (env : nat -> Env)
  (inEnvelope : InEnvelope) (w : World) :
  exists out w',
    processEnvelope manifest isUtteranceEvent speakerUri serviceUrl env inEnvelope w =
      (Returned out, w') /\
    outSchemaVersion out = schemaVersion inEnvelope /\
    outConversationId out = conversationId inEnvelope /\
    outSpeakerUri out = speakerUri /\
    outServiceUrl out = serviceUrl /\
    length (outEvents out) =
      length (filter (answered isUtteranceEvent speakerUri serviceUrl) (events inEnvelope)) /\
    map isTextUtterance (outEvents out) =
      map isUtteranceEvent
          (filter (answered isUtteranceEvent speakerUri serviceUrl) (events inEnvelope)) /\
    Forall (fun event => recipientOf event = senderSpeakerUri inEnvelope) (outEvents out).
Proof.
  unfold processEnvelope, bind. rewrite processEvents_run. cbn [app].
  eexists. eexists. split; [reflexivity |].
  cbn [outSchemaVersion outConversationId outSpeakerUri outServiceUrl outEvents].
  destruct (responsesFrom_shape Manifest manifest isUtteranceEvent speakerUri serviceUrl env
              (senderSpeakerUri inEnvelope) (events inEnvelope) 0) as [Hkinds Hto].
  repeat split; try reflexivity.
  - rewrite <- (length_map isTextUtterance), Hkinds, length_map. reflexivity.
  - exact Hkinds.
  - exact Hto.
Qed.

(** X15: only utterances addressed to the agent have effects.  When
    none of the events is one (they are addressed to someone else, or
    are manifest requests or of another type), processing the
    envelope leaves the world as it was: no wait, no lookup, no
    request, [lastRequestTime] untouched. *)
Theorem envelope_without_queries_is_idle `{CaseMapping}
  (Manifest : Type) (manifest : Manifest) (isUtteranceEvent : InEvent -> bool)
  (speakerUri serviceUrl : jsstring) (env : nat -> Env)
  (inEnvelope : InEnvelope) (w : World) :
  (forall event,
     In event (events inEnvelope) ->
     addressedToMe speakerUri serviceUrl event && isUtteranceEvent event = false) ->
  snd (processEnvelope manifest isUtteranceEvent speakerUri serviceUrl env inEnvelope w) = w.
Proof.
  intros Hidle. unfold processEnvelope, bind. rewrite processEvents_run. cbn [snd].
  apply worldFrom_idle. exact Hidle.
Qed.

(** X16: pacing is an invariant of [processEnvelope]: however many
    utterances an envelope holds, if the requests made before were at
    least 3000 ms apart and not later than [lastRequestTime], so are
    the requests after the envelope has been processed, provided no
    timer fires early. *)
Theorem envelope_keeps_pace `{CaseMapping}
  (Manifest : Type) (manifest : Manifest) (isUtteranceEvent : InEvent -> bool)
  (speakerUri serviceUrl : jsstring) (env : nat -> Env)
  (inEnvelope : InEnvelope) (w : World) :
  (forall k, (0 <= timerLate (env k))%Z) ->
  paced w ->
  paced (snd (processEnvelope manifest isUtteranceEvent speakerUri serviceUrl env
                inEnvelope w)).
Proof.
  intros Hlate Hpaced. unfold processEnvelope, bind. rewrite processEvents_run.
  cbn [snd]. apply worldFrom_paced; assumption.
Qed.

Lemma envelope_responses_witness :
  exists out w',
    processEnvelope (u "manifest") byEventType (u "agent") (u "https://agent") steady
      busyEnvelope afresh = (Returned out, w') /\
    map isTextUtterance (outEvents out) = [true; false; true].
Proof.
  destruct (@envelope_responses asciiCase jsstring (u "manifest") byEventType
              (u "agent") (u "https://agent") steady busyEnvelope afresh)
    as [out [w' [Hrun [_ [_ [_ [_ [_ [Hkinds _]]]]]]]]].
  exists out, w'. split; [exact Hrun |]. rewrite Hkinds. vm_compute. reflexivity.
Defined.

Lemma envelope_without_queries_is_idle_witness :
  snd (processEnvelope (u "manifest") byEventType (u "agent") (u "https://agent") steady
         quietEnvelope afresh) = afresh.
Proof.
  apply (@envelope_without_queries_is_idle asciiCase jsstring (u "manifest") byEventType
           (u "agent") (u "https://agent") steady quietEnvelope afresh).
  intros event Hin. simpl in Hin.
  destruct Hin as [<- | [<- | []]]; vm_compute; reflexivity.
Defined.

Lemma envelope_keeps_pace_witness :
  paced (snd (processEnvelope (u "manifest") byEventType (u "agent") (u "https://agent")
                steady busyEnvelope afresh)) /\
  fetchTimes (trace (snd (processEnvelope (u "manifest") byEventType (u "agent")
                            (u "https://agent") steady busyEnvelope afresh))) =
  [1730000000000; 1730000003000]%Z.
Proof.
  split; [| vm_compute; reflexivity].
  apply (@envelope_keeps_pace asciiCase jsstring (u "manifest") byEventType
           (u "agent") (u "https://agent") steady busyEnvelope afresh).
  - intros k. vm_compute. discriminate.
  - split; simpl; constructor.
Defined.

(** ** More on the report *)

(** X17: the Recent SEC Filings section looks at the first 20 forms and
    the first 20 filing dates only: two submissions with a recent
    object that agree on those print the same section, whatever
    follows in the arrays and whatever the accession numbers are. *)
Theorem recent_filings_window
  (submissions1 submissions2 : CompanySubmissions) (recent1 recent2 : RecentFilings) :
  recentOf submissions1 = Some recent1 ->
  recentOf submissions2 = Some recent2 ->
  firstn 20 (orEmpty (form recent1)) = firstn 20 (orEmpty (form recent2)) ->
  firstn 20 (orEmpty (filingDate recent1)) = firstn 20 (orEmpty (filingDate recent2)) ->
  _analyzeRecentFilings submissions1 = _analyzeRecentFilings submissions2.
Proof.
  intros H1 H2 Hforms Hdates. rewrite !_analyzeRecentFilings_shape.
  assert (Hshown : shownEntries (entriesOf submissions1) =
                   shownEntries (entriesOf submissions2)).
  { unfold shownEntries, keyEntriesOfFirst20, entriesOf. rewrite H1, H2.
    rewrite !combine_firstn, Hforms, Hdates. reflexivity. }
  rewrite H1, H2, Hshown. reflexivity.
Qed.

Lemma recent_filings_window_witness :
  let longer :=
    {| description := None; sic := None; fiscalYearEnd := None;
       filings := Some {| recent := Some
         {| form := Some (repeat (u "4") 20 ++ [u "10-K"]);
            filingDate := Some (repeat (u "2024-11-01") 21);
            accessionNumber := None |} |} |} in
  let shorter :=
    {| description := None; sic := None; fiscalYearEnd := None;
       filings := Some {| recent := Some
         {| form := Some (repeat (u "4") 20);
            filingDate := Some (repeat (u "2024-11-01") 20);
            accessionNumber := None |} |} |} in
  _analyzeRecentFilings longer = _analyzeRecentFilings shorter.
Proof.
  intros longer shorter.
  apply (recent_filings_window longer shorter
           {| form := Some (repeat (u "4") 20 ++ [u "10-K"]);
              filingDate := Some (repeat (u "2024-11-01") 21);
              accessionNumber := None |}
           {| form := Some (repeat (u "4") 20);
              filingDate := Some (repeat (u "2024-11-01") 20);
              accessionNumber := None |});
    reflexivity.
Defined.

(** X18: every filing line the section prints carries the description
    that [formDescriptions] gives for its form; the form itself, the
    fallback of [formDescriptions[form] || form], is never printed in
    its place. *)
Theorem filing_lines_use_table_descriptions
  (entries : list (jsstring * jsstring)) (entry : jsstring * jsstring) :
  In entry (shownEntries entries) ->
  exists description,
    In (fst entry, description) formDescriptions /\
    entryLine entry =
      bullet ++ u " " ++ fst entry ++ u " (" ++ description ++
      u ") - Filed: " ++ snd entry ++ nl.
Proof.
  intros Hin. pose proof (shownEntries_key entries) as Hkey.
  rewrite Forall_forall in Hkey. specialize (Hkey entry Hin).
  destruct entry as [form date]. cbn [fst snd] in *.
  unfold keyForms in Hkey. cbn [map In] in Hkey.
  destruct Hkey as [<- | [<- | [<- | [<- | []]]]].
  - exists (u "Annual Report"). split; [cbn; auto | reflexivity].
  - exists (u "Quarterly Report"). split; [cbn; auto | reflexivity].
  - exists (u "Current Report"). split; [cbn; auto | reflexivity].
  - exists (u "Proxy Statement"). split; [cbn; auto 6 | reflexivity].
Qed.

Lemma filing_lines_use_table_descriptions_witness :
  exists description,
    In (u "DEF 14A", description) formDescriptions /\
    entryLine (u "DEF 14A", u "2024-01-11") =
      bullet ++ u " " ++ u "DEF 14A" ++ u " (" ++ description ++
      u ") - Filed: " ++ u "2024-01-11" ++ nl.
Proof.
  apply (filing_lines_use_table_descriptions (entriesOf raggedSubmissions)
           (u "DEF 14A", u "2024-01-11")).
  vm_compute. auto 6.
Defined.

(** X19: missing fields.  When the submissions carry no SIC code, or
    an empty one, the report reads [Industry: Not specified], and
    likewise for the fiscal year end; a non-empty value is printed as
    it is. *)
Theorem missing_fields_read_not_specified
  (companyName : jsstring) (cikData : CompanyData) (submissions : CompanySubmissions) :
  let report := _formatSECResults companyName cikData submissions in
  ((sic submissions = None \/ sic submissions = Some []) ->
   occursIn (bullet ++ u " Industry: " ++ u "Not specified" ++ nl) report) /\
  (forall c rest,
     sic submissions = Some (c :: rest) ->
     occursIn (bullet ++ u " Industry: " ++ (c :: rest) ++ nl) report) /\
  ((fiscalYearEnd submissions = None \/ fiscalYearEnd submissions = Some []) ->
   occursIn (bullet ++ u " Fiscal Year End: " ++ u "Not specified" ++ nl ++ nl) report) /\
  (forall c rest,
     fiscalYearEnd submissions = Some (c :: rest) ->
     occursIn (bullet ++ u " Fiscal Year End: " ++ (c :: rest) ++ nl ++ nl) report).
Proof.
  intros report.
  assert (Hsic : occursIn (bullet ++ u " Industry: " ++
                           orElse (sic submissions) (u "Not specified") ++ nl) report).
  { apply occursIn_report_tail. unfold afterDescription.
    exists [], (bullet ++ u " Fiscal Year End: " ++
                orElse (fiscalYearEnd submissions) (u "Not specified") ++ nl ++ nl ++
                _analyzeRecentFilings submissions ++
                _extractFinancialHighlights submissions).
    cbn [app]. rewrite <- !app_assoc. reflexivity. }
  assert (Hyear : occursIn (bullet ++ u " Fiscal Year End: " ++
                            orElse (fiscalYearEnd submissions) (u "Not specified") ++
                            nl ++ nl) report).
  { apply occursIn_report_tail. unfold afterDescription.
    exists (bullet ++ u " Industry: " ++ orElse (sic submissions) (u "Not specified") ++ nl),
           (_analyzeRecentFilings submissions ++ _extractFinancialHighlights submissions).
    rewrite <- !app_assoc. reflexivity. }
  split; [| split; [| split]].
  - intros [Hnone | Hempty]; [rewrite Hnone in Hsic | rewrite Hempty in Hsic]; exact Hsic.
  - intros c rest Hsome. rewrite Hsome in Hsic. exact Hsic.
  - intros [Hnone | Hempty]; [rewrite Hnone in Hyear | rewrite Hempty in Hyear];
      exact Hyear.
  - intros c rest Hsome. rewrite Hsome in Hyear. exact Hyear.
Qed.

Lemma missing_fields_read_not_specified_witness :
  occursIn (bullet ++ u " Industry: " ++ u "Not specified" ++ nl)
           (_formatSECResults (u "Apple stock") appleData raggedSubmissions) /\
  occursIn (bullet ++ u " Fiscal Year End: " ++ u "0930" ++ nl ++ nl)
           (_formatSECResults (u "Apple stock") appleData lateReports).
Proof.
  split.
  - destruct (missing_fields_read_not_specified (u "Apple stock") appleData
                raggedSubmissions) as [Hsic _].
    apply Hsic. left. reflexivity.
  - destruct (missing_fields_read_not_specified (u "Apple stock") appleData lateReports)
      as [_ [_ [_ Hyear]]].
    apply (Hyear 48%N (u "930")). reflexivity.
Defined.

(** X20: the kind of answer can be read off the text.  A fallback
    report never equals a full report, whatever the names and the
    data; neither equals one of the three fixed messages; and the
    fixed messages differ from each other. *)
Theorem answers_are_distinguishable
  (name name' : jsstring) (cikData : CompanyData) (submissions : CompanySubmissions) :
  _fallbackCompanySearch name <> _formatSECResults name' cikData submissions /\
  Forall (fun fixed =>
            fixed <> _fallbackCompanySearch name /\
            fixed <> _formatSECResults name' cikData submissions)
         [needNameMessage; scopeMessage; errorMessage] /\
  needNameMessage <> scopeMessage /\
  scopeMessage <> errorMessage /\
  needNameMessage <> errorMessage.
Proof.
  assert (Hfallback : firstn 17 (_fallbackCompanySearch name) = u "**SEC Financial R").
  { unfold _fallbackCompanySearch. cbv zeta. rewrite <- !app_assoc. reflexivity. }
  assert (Hfull : firstn 17 (_formatSECResults name' cikData submissions) =
                  u "**SEC Financial D").
  { rewrite _formatSECResults_shape. unfold headerAndIdentity. reflexivity. }
  assert (Hfixed : forall fixed,
            In fixed [needNameMessage; scopeMessage; errorMessage] ->
            firstn 1 fixed = [55357%N]).
  { intros fixed [<- | [<- | [<- | []]]]; reflexivity. }
  split.
  { intros Heq. rewrite Heq, Hfull in Hfallback. vm_compute in Hfallback. discriminate. }
  split.
  { apply Forall_forall. intros fixed Hin. specialize (Hfixed fixed Hin). split.
    - intros Heq. rewrite Heq in Hfixed.
      apply (f_equal (firstn 1)) in Hfallback. rewrite firstn_firstn in Hfallback.
      cbn [Nat.min] in Hfallback. rewrite Hfixed in Hfallback.
      vm_compute in Hfallback. discriminate.
    - intros Heq. rewrite Heq in Hfixed.
      apply (f_equal (firstn 1)) in Hfull. rewrite firstn_firstn in Hfull.
      cbn [Nat.min] in Hfull. rewrite Hfixed in Hfull.
      vm_compute in Hfull. discriminate. }
  repeat split; intros Heq; vm_compute in Heq; discriminate.
Qed.
